(** * cle.memory: a shallow embedding of [Clemory]

    [src/cle/memory.py] implements the address space of a loaded binary:
    a sorted list of "backers" (a base address with either a byte string
    or a nested [Clemory]), a dictionary of single-byte "updates" on top of
    them, a stream cursor, and a lazily built flattened view made of C
    buffers.

    Modelling decisions.
    - Addresses, sizes and the cursor are Python integers: [Z].
    - A Python 2 [str] is a [list byte]; a character is a string of length 1.
    - A [Clemory] object is embedded by value: a nested address space is a
      sub-term of the space that holds it, so cyclic object graphs (a space
      added as a backer of itself) are outside the model.  A backer holds a
      reference, so a nested space can change after it was added; the
      relation [evolves] below accounts for that by replacing the nested
      value in place.
    - Exceptions are a [result] type; methods that assign to attributes of
      [self] are state-passing functions [Clemory -> result A * Clemory]
      which hand back the state reached when the exception was raised.
    - [_arch] is only read by the word helpers [read_addr_at] and
      [write_addr_at], which delegate to [struct]; it is not a field of
      the record, and the word helpers take its width and the two
      conversions of [struct] as parameters. *)

From stdpp Require Import gmap list fin_maps sorting.
From Stdlib Require Import ZArith Lia Strings.Byte.

Local Open Scope Z_scope.

(** ** Python values and exceptions *)

(** The exceptions raised in [memory.py] and by the builtins it calls.
    [KeyError] and [IndexError] carry the offending address, as in
    [raise KeyError(k)]; [OverflowError] is what [chr] raises for an
    integer that does not fit a C [long]. *)
Inductive pyerr : Type :=
  | KeyError (k : Z)
  | IndexError (k : Z)
  | ValueError
  | TypeError
  | OverflowError.

Inductive result (A : Type) : Type :=
  | Ok (a : A)
  | Raise (e : pyerr).
Arguments Ok {A} a.
Arguments Raise {A} e.

Definition is_ok {A} (r : result A) : bool :=
  match r with Ok _ => true | Raise _ => false end.

#[global] Instance result_ret : MRet result := fun A a => Ok a.
#[global] Instance result_bind : MBind result := fun A B f r =>
  match r with
  | Ok a => f a
  | Raise e => Raise e
  end.

(** What a slot of [_updates] can hold.  [__setitem__] stores its argument
    unchecked; the two shapes that occur are a string (a byte is a string
    of length one) and the pair [(start, data)] that [update_backer]
    stores. *)
Inductive pyval (D : Type) : Type :=
  | PStr (s : list byte)
  | PTuple (start : Z) (data : D).
Arguments PStr {D} s.
Arguments PTuple {D} start data.

(** ** The object *)

(** [Clemory.__init__] sets [_backers], [_updates], [_pointer], [_cbackers]
    and [_flattening_needed]; a backer's data is a [str] or a [Clemory]. *)
Inductive Clemory : Type :=
  | mkClemory (backers : list (Z * backer_data))
              (updates : gmap Z (pyval backer_data))
              (pointer : Z)
              (cbackers : list (Z * list byte))
              (flattening_needed : bool)
with backer_data : Type :=
  | DStr (s : list byte)
  | DClemory (m : Clemory).

Abbreviation value := (pyval backer_data).

Definition _backers (self : Clemory) : list (Z * backer_data) :=
  let (b, _, _, _, _) := self in b.
Definition _updates (self : Clemory) : gmap Z value :=
  let (_, u, _, _, _) := self in u.
Definition _pointer (self : Clemory) : Z :=
  let (_, _, p, _, _) := self in p.
Definition _cbackers (self : Clemory) : list (Z * list byte) :=
  let (_, _, _, c, _) := self in c.
Definition _flattening_needed (self : Clemory) : bool :=
  let (_, _, _, _, f) := self in f.

Definition set_backers (b : list (Z * backer_data)) (self : Clemory) :=
  mkClemory b (_updates self) (_pointer self) (_cbackers self)
            (_flattening_needed self).
Definition set_updates (u : gmap Z value) (self : Clemory) :=
  mkClemory (_backers self) u (_pointer self) (_cbackers self)
            (_flattening_needed self).
Definition set_pointer (p : Z) (self : Clemory) :=
  mkClemory (_backers self) (_updates self) p (_cbackers self)
            (_flattening_needed self).
Definition set_cbackers (c : list (Z * list byte)) (self : Clemory) :=
  mkClemory (_backers self) (_updates self) (_pointer self) c
            (_flattening_needed self).
Definition set_flattening_needed (f : bool) (self : Clemory) :=
  mkClemory (_backers self) (_updates self) (_pointer self) (_cbackers self) f.

(** [Clemory(arch)]: the state [__init__] leaves. *)
Definition init : Clemory := mkClemory [] ∅ 0 [] true.

(** A character of a Python string. *)
Definition chr_of (c : byte) : value := PStr [c].

(** [data[i]] on a [str], for an index already checked to be in range. *)
Definition str_index (data : list byte) (i : Z) : result value :=
  match data !! Z.to_nat i with
  | Some c => Ok (chr_of c)
  | None => Raise (IndexError i)
  end.

(** ** Byte access *)

(** [Clemory.__getitem__]: the update at [k] if there is one; otherwise the
    first backer, in list order, that resolves [k].  A [KeyError] from a
    nested space is swallowed and the scan goes on. *)
Fixpoint __getitem__ (self : Clemory) (k : Z) {struct self} : result value :=
  match _updates self !! k with
  | Some v => Ok v
  | None =>
      (fix scan (bs : list (Z * backer_data)) : result value :=
         match bs with
         | [] => Raise (KeyError k)
         | (start, DStr data) :: bs' =>
             if (0 <=? k - start) && (k - start <? Z.of_nat (length data))
             then str_index data (k - start)
             else scan bs'
         | (start, DClemory data) :: bs' =>
             match __getitem__ data (k - start) with
             | Raise (KeyError _) => scan bs'
             | r => r
             end
         end) (_backers self)
  end.

(** [Clemory.__contains__]: [True] when [__getitem__] returns, [False] when
    it raises [KeyError]; any other exception propagates. *)
Definition __contains__ (self : Clemory) (k : Z) : result bool :=
  match __getitem__ self k with
  | Ok _ => Ok true
  | Raise (KeyError _) => Ok false
  | Raise e => Raise e
  end.

(** [Clemory.__setitem__]. *)
Definition __setitem__ (k : Z) (v : value) (self : Clemory)
  : result unit * Clemory :=
  match __contains__ self k with
  | Raise e => (Raise e, self)
  | Ok false => (Raise (IndexError k), self)
  | Ok true =>
      let self := set_updates (<[k := v]> (_updates self)) self in
      let self := set_flattening_needed true self in
      (Ok tt, self)
  end.

(** ** The backer store *)

(** [bisect.insort] of the Python library: binary search for the
    insertion point to the right of the elements not greater than [x],
    then [a.insert(lo, x)].  The [while lo < hi] loop runs at most
    [hi - lo] times; [fuel] bounds it. *)
Section Bisect.
Context {A : Type} (lt : A -> A -> bool).

Fixpoint bisect_loop (fuel : nat) (a : list A) (x : A) (lo hi : nat) : nat :=
  match fuel with
  | O => lo
  | S fuel' =>
      if (lo <? hi)%nat then
        let mid := ((lo + hi) / 2)%nat in
        match a !! mid with
        | Some y =>
            if lt x y then bisect_loop fuel' a x lo mid
            else bisect_loop fuel' a x (mid + 1)%nat hi
        | None => lo
        end
      else lo
  end.

Definition bisect_right (a : list A) (x : A) : nat :=
  bisect_loop (length a) a x 0%nat (length a).

Definition list_insert_at (a : list A) (i : nat) (x : A) : list A :=
  take i a ++ x :: drop i a.

Definition insort (a : list A) (x : A) : list A :=
  list_insert_at a (bisect_right a x) x.
End Bisect.

Section Backers.
(** The order Python 2 puts on the data of two backers; it is consulted
    by the tuple comparison of [insort] only when the two bases are
    equal ([str] against [str] is lexicographic, an instance against a
    [str] goes by type name, two instances by identity). *)
Variable data_lt : backer_data -> backer_data -> bool.

(** [(start, data) < (start', data')] on Python tuples. *)
Definition backer_lt (x y : Z * backer_data) : bool :=
  if x.1 =? y.1 then data_lt x.2 y.2 else x.1 <? y.1.

(** [Clemory.add_backer].  The [isinstance] test is the typing of
    [data]. *)
Definition add_backer (start : Z) (data : backer_data) (self : Clemory)
  : result unit * Clemory :=
  match __contains__ self start with
  | Raise e => (Raise e, self)
  | Ok true => (Raise ValueError, self)
  | Ok false =>
      let self := set_backers (insort backer_lt (_backers self) (start, data)) self in
      let self := set_flattening_needed true self in
      (Ok tt, self)
  end.
End Backers.

(** The loop of [Clemory.update_backer]: [i] is the index [enumerate]
    gives, [bs] the backers still to visit. *)
Fixpoint update_backer_loop (bs : list (Z * backer_data)) (i : Z)
    (start : Z) (data : backer_data) (self : Clemory) : Clemory :=
  match bs with
  | [] => self
  | (oldstart, _) :: bs' =>
      if oldstart =? start then
        let self := set_updates (<[i := PTuple start data]> (_updates self)) self in
        set_flattening_needed true self
      else update_backer_loop bs' (i + 1) start data self
  end.

(** [Clemory.update_backer]. *)
Definition update_backer (start : Z) (data : backer_data) (self : Clemory)
  : result unit * Clemory :=
  (Ok tt, update_backer_loop (_backers self) 0 start data self).

(** ** Ranges and the stream cursor *)

(** The loop of [Clemory.read_bytes] over [range(addr, addr+n)], [cnt]
    addresses from [i] on. *)
Fixpoint read_bytes_loop (self : Clemory) (i : Z) (cnt : nat)
  : result (list value) :=
  match cnt with
  | O => Ok []
  | S cnt' =>
      v ← __getitem__ self i;
      b ← read_bytes_loop self (i + 1) cnt';
      Ok (v :: b)
  end.

(** [Clemory.read_bytes]. *)
Definition read_bytes (self : Clemory) (addr n : Z) : result (list value) :=
  read_bytes_loop self addr (Z.to_nat n).

(** [Clemory.write_bytes]: one [__setitem__] per character, [i] counting
    from [0]. *)
Fixpoint write_bytes_loop (addr i : Z) (data : list byte) (self : Clemory)
  : result unit * Clemory :=
  match data with
  | [] => (Ok tt, self)
  | c :: data' =>
      match __setitem__ (addr + i) (chr_of c) self with
      | (Ok _, self') => write_bytes_loop addr (i + 1) data' self'
      | (Raise e, self') => (Raise e, self')
      end
  end.

Definition write_bytes (addr : Z) (data : list byte) (self : Clemory)
  : result unit * Clemory :=
  write_bytes_loop addr 0 data self.

(** [''.join(out)]. *)
Fixpoint join (out : list value) : result (list byte) :=
  match out with
  | [] => Ok []
  | PStr s :: out' => r ← join out'; Ok (s ++ r)
  | PTuple _ _ :: _ => Raise TypeError
  end.

(** [Clemory.seek]. *)
Definition seek (v : Z) (self : Clemory) : result unit * Clemory :=
  (Ok tt, set_pointer v self).

(** [Clemory.read]. *)
Definition read (nbytes : Z) (self : Clemory) : result value * Clemory :=
  if nbytes =? 1 then
    let self := set_pointer (_pointer self + 1) self in
    (__getitem__ self (_pointer self - 1), self)
  else
    match read_bytes self (_pointer self) nbytes with
    | Raise e => (Raise e, self)
    | Ok out =>
        let self := set_pointer (_pointer self + nbytes) self in
        (s ← join out; Ok (PStr s), self)
    end.

(** ** The flattened view *)

(** A stride: the start address and the [bytearray] of one run. *)
Abbreviation stride := (Z * list byte)%type.

(** [data[i] = val] on a [bytearray], for [i] in range: a string of length
    one is stored, a longer or empty string is a [ValueError], anything
    else a [TypeError]. *)
Definition bytearray_set (data : list byte) (i : Z) (val : value)
  : result (list byte) :=
  match val with
  | PStr [c] => Ok (<[Z.to_nat i := c]> data)
  | PStr _ => Raise ValueError
  | PTuple _ _ => Raise TypeError
  end.

(** The inner [for start, data in out: ... break / else: raise] of
    [_stride_repr]: the update lands in the first stride that covers
    [key]. *)
Fixpoint apply_update (key : Z) (val : value) (out : list stride)
  : result (list stride) :=
  match out with
  | [] => Raise ValueError
  | (start, data) :: out' =>
      if (start <=? key) && (key <? start + Z.of_nat (length data)) then
        data' ← bytearray_set data (key - start) val;
        Ok ((start, data') :: out')
      else
        out'' ← apply_update key val out';
        Ok ((start, data) :: out'')
  end.

(** The outer [for key, val in self._updates.iteritems()], over the items
    in the order the dictionary yields them.  The keys are distinct, so
    the order decides only which of several failing updates raises. *)
Fixpoint apply_updates (us : list (Z * value)) (out : list stride)
  : result (list stride) :=
  match us with
  | [] => Ok out
  | (key, val) :: us' =>
      out' ← apply_update key val out;
      apply_updates us' out'
  end.

(** The [lambda (substart, subdata), start=start] of [_stride_repr]. *)
Definition shift_stride (start : Z) (s : stride) : stride :=
  (s.1 + start, s.2).

(** [Clemory._stride_repr]: one stride per [str] backer, the shifted
    strides of a nested space, then every update written into the first
    stride that covers it. *)
Fixpoint _stride_repr (self : Clemory) {struct self} : result (list stride) :=
  out ← (fix backers_loop (bs : list (Z * backer_data)) : result (list stride) :=
           match bs with
           | [] => Ok []
           | (start, DStr data) :: bs' =>
               out ← backers_loop bs';
               Ok ((start, data) :: out)
           | (start, DClemory data) :: bs' =>
               sub ← _stride_repr data;
               out ← backers_loop bs';
               Ok (map (shift_stride start) sub ++ out)
           end) (_backers self);
  apply_updates (map_to_list (_updates self)) out.

(** [Clemory.stride_repr]: [(start, end, data)] triples. *)
Definition stride_repr (self : Clemory) : result (list (Z * Z * list byte)) :=
  out ← _stride_repr self;
  Ok (map (fun s : stride => (s.1, s.1 + Z.of_nat (length s.2), s.2)) out).

(** [Clemory._flatten_to_c]: the flag is cleared before the strides are
    computed; each stride becomes an [unsigned char] array with the same
    contents. *)
Definition _flatten_to_c (self : Clemory) : result unit * Clemory :=
  let self := set_flattening_needed false self in
  match _stride_repr self with
  | Raise e => (Raise e, self)
  | Ok strides => (Ok tt, set_cbackers strides self)
  end.

(** A cffi pointer [cbacker + off]: the array it points into and the
    offset. *)
Record cdata : Type := mkCdata { c_array : list byte; c_offset : Z }.

(** [p[i]] for a cffi pointer. *)
Definition cdata_index (p : cdata) (i : Z) : option byte :=
  if 0 <=? c_offset p + i then c_array p !! Z.to_nat (c_offset p + i) else None.

(** The scan of [read_bytes_c] over [_cbackers]. *)
Fixpoint cbackers_scan (cs : list (Z * list byte)) (addr : Z)
  : result (cdata * Z) :=
  match cs with
  | [] => Raise (KeyError addr)
  | (start, cbacker) :: cs' =>
      if (addr >=? start) && (addr <? start + Z.of_nat (length cbacker)) then
        Ok (mkCdata cbacker (addr - start), Z.of_nat (length cbacker) - start)
      else cbackers_scan cs' addr
  end.

(** [Clemory.read_bytes_c]. *)
Definition read_bytes_c (addr : Z) (self : Clemory)
  : result (cdata * Z) * Clemory :=
  match (if _flattening_needed self then _flatten_to_c self else (Ok tt, self)) with
  | (Raise e, self') => (Raise e, self')
  | (Ok _, self') => (cbackers_scan (_cbackers self') addr, self')
  end.

(** ** Snapshots *)

(** The value [__getstate__] builds in [out]: the updates as integers and,
    per backer, a tagged record holding the string or what the nested
    [__getstate__] returned ([None] is Python's [None]). *)
Inductive snapshot : Type :=
  | mkSnapshot (updates : gmap Z Z) (backers : list (Z * serialdata))
with serialdata : Type :=
  | SStr (data : list byte)
  | SClemory (data : option snapshot).

(** [ord(v)]: defined on strings of length one. *)
Definition ord (v : value) : result Z :=
  match v with
  | PStr [c] => Ok (Z.of_N (Byte.to_N c))
  | _ => Raise TypeError
  end.

(** [sys.maxint], the largest C [long] of the interpreter; the value of
    a 64-bit build is taken. *)
Definition sys_maxint : Z := 2 ^ 63 - 1.

(** [chr(v)]: defined on [range(256)].  The argument is converted to a C
    [long] first: an integer that does not fit raises [OverflowError], one
    that fits and lies outside [range(256)] raises [ValueError]. *)
Definition chr (v : Z) : result value :=
  if (- sys_maxint - 1 <=? v) && (v <=? sys_maxint) then
    if (0 <=? v) && (v <? 256) then
      match Byte.of_N (Z.to_N v) with
      | Some c => Ok (chr_of c)
      | None => Raise ValueError
      end
    else Raise ValueError
  else Raise OverflowError.

(** A dict comprehension [{k: f(v) for k, v in d.iteritems()}]. *)
Definition dict_comprehension {A B} (f : A -> result B) (d : gmap Z A)
  : result (gmap Z B) :=
  map_fold (fun k v acc => acc' ← acc; v' ← f v; Ok (<[k := v']> acc'))
           (Ok ∅) d.

(** [Clemory.__getstate__]: [out] is built and the body ends; no [return]
    follows, so the call evaluates to [None]. *)
Fixpoint __getstate__ (self : Clemory) {struct self} : result (option snapshot) :=
  updates ← dict_comprehension ord (_updates self);
  backers ← (fix backers_loop (bs : list (Z * backer_data))
               : result (list (Z * serialdata)) :=
               match bs with
               | [] => Ok []
               | (start, DStr data) :: bs' =>
                   out ← backers_loop bs';
                   Ok ((start, SStr data) :: out)
               | (start, DClemory data) :: bs' =>
                   sub ← __getstate__ data;
                   out ← backers_loop bs';
                   Ok ((start, SClemory sub) :: out)
               end) (_backers self);
  let out := mkSnapshot updates backers in
  Ok None.

(** The body of [Clemory.__setstate__] on a snapshot record. *)
Fixpoint setstate_body (s : snapshot) (self : Clemory) {struct s}
  : result unit * Clemory :=
  match s with
  | mkSnapshot updates backers =>
      match dict_comprehension chr updates with
      | Raise e => (Raise e, self)
      | Ok u =>
          let self := set_updates u self in
          let self := set_backers [] self in
          match
            (fix backers_loop (bs : list (Z * serialdata)) (self : Clemory)
               : result unit * Clemory :=
               match bs with
               | [] => (Ok tt, self)
               | (start, SStr data) :: bs' =>
                   backers_loop bs'
                     (set_backers (_backers self ++ [(start, DStr data)]) self)
               | (start, SClemory None) :: bs' => (Raise TypeError, self)
               | (start, SClemory (Some s')) :: bs' =>
                   match setstate_body s' init with
                   | (Raise e, _) => (Raise e, self)
                   | (Ok _, subdata) =>
                       backers_loop bs'
                         (set_backers (_backers self ++ [(start, DClemory subdata)]) self)
                   end
               end) backers self
          with
          | (Raise e, self) => (Raise e, self)
          | (Ok _, self) => (Ok tt, set_flattening_needed true self)
          end
      end
  end.

(** [Clemory.__setstate__]: subscripting [None] is a [TypeError]. *)
Definition __setstate__ (s : option snapshot) (self : Clemory)
  : result unit * Clemory :=
  match s with
  | None => (Raise TypeError, self)
  | Some s => setstate_body s self
  end.

(** ** Word helpers *)

(** [read_addr_at] and [write_addr_at] go through [struct] with the format
    and the width of [self._arch], which is set once by [__init__].  The
    architecture and [struct] are not part of [memory.py]: the width
    [self._arch.bytes] and the two conversions for the format
    [self._arch.struct_fmt()] are parameters, each conversion returning
    its value or raising. *)
Section Word_helpers.
Variable arch_bytes : Z.
Variable pack : Z -> result (list byte).
Variable unpack : list byte -> result Z.

(** [Clemory.read_addr_at]: [struct.unpack(fmt, ''.join(read_bytes))[0]]. *)
Definition read_addr_at (self : Clemory) (where_ : Z) : result Z :=
  out ← read_bytes self where_ arch_bytes;
  s ← join out;
  unpack s.

(** [Clemory.write_addr_at]: [write_bytes(where, struct.pack(fmt, addr))]. *)
Definition write_addr_at (where_ addr : Z) (self : Clemory)
  : result unit * Clemory :=
  match pack addr with
  | Raise e => (Raise e, self)
  | Ok by_ => write_bytes where_ by_ self
  end.
End Word_helpers.

(** ** Auxiliary definitions *)

(** *** The loops of the methods as functions of their own *)

(** The scan of [__getitem__] over the backers, as a function of its own. *)
Fixpoint getitem_backers (bs : list (Z * backer_data)) (k : Z) : result value :=
  match bs with
  | [] => Raise (KeyError k)
  | (start, DStr data) :: bs' =>
      if (0 <=? k - start) && (k - start <? Z.of_nat (length data))
      then str_index data (k - start)
      else getitem_backers bs' k
  | (start, DClemory data) :: bs' =>
      match __getitem__ data (k - start) with
      | Raise (KeyError _) => getitem_backers bs' k
      | r => r
      end
  end.

(** The first loop of [_stride_repr], as a function of its own. *)
Fixpoint stride_backers (bs : list (Z * backer_data)) : result (list stride) :=
  match bs with
  | [] => Ok []
  | (start, DStr data) :: bs' =>
      out ← stride_backers bs';
      Ok ((start, data) :: out)
  | (start, DClemory data) :: bs' =>
      sub ← _stride_repr data;
      out ← stride_backers bs';
      Ok (map (shift_stride start) sub ++ out)
  end.

(** The loop of [__setstate__] over the backers of the snapshot, as a
    function of its own. *)
Fixpoint setstate_backers (bs : list (Z * serialdata)) (self : Clemory)
  : result unit * Clemory :=
  match bs with
  | [] => (Ok tt, self)
  | (start, SStr data) :: bs' =>
      setstate_backers bs'
        (set_backers (_backers self ++ [(start, DStr data)]) self)
  | (start, SClemory None) :: bs' => (Raise TypeError, self)
  | (start, SClemory (Some s')) :: bs' =>
      match setstate_body s' init with
      | (Raise e, _) => (Raise e, self)
      | (Ok _, subdata) =>
          setstate_backers bs'
            (set_backers (_backers self ++ [(start, DClemory subdata)]) self)
      end
  end.

(** [s['backers']]. *)
Definition snapshot_backers (s : snapshot) : list (Z * serialdata) :=
  match s with mkSnapshot _ backers => backers end.

(** The byte a list of strides holds for [k]: the one at offset
    [k - start] of the first stride that covers [k]. *)
Fixpoint strides_read (out : list stride) (k : Z) : option byte :=
  match out with
  | [] => None
  | (start, data) :: out' =>
      if (start <=? k) && (k <? start + Z.of_nat (length data))
      then data !! Z.to_nat (k - start)
      else strides_read out' k
  end.

(** *** Induction over nested spaces *)

(** [P] holds of the space nested in the backer [b], if [b] holds one. *)
Definition on_nested (P : Clemory -> Prop) (b : Z * backer_data) : Prop :=
  match b.2 with
  | DStr _ => True
  | DClemory m => P m
  end.

(** Induction on a [Clemory] with the hypothesis available for every
    nested space among its backers. *)
Section Clemory_nested_ind.
Variable P : Clemory -> Prop.
Hypothesis step : forall self, Forall (on_nested P) (_backers self) -> P self.

Fixpoint Clemory_nested_ind (self : Clemory) : P self :=
  match self with
  | mkClemory bs us p cs f =>
      step (mkClemory bs us p cs f)
        ((fix go (l : list (Z * backer_data)) : Forall (on_nested P) l :=
            match l with
            | [] => List.Forall_nil _
            | (start, d) :: l' =>
                @List.Forall_cons _ (on_nested P) (start, d) l'
                  (match d return on_nested P (start, d) with
                   | DStr _ => I
                   | DClemory m => Clemory_nested_ind m
                   end)
                  (go l')
            end) bs)
  end.
End Clemory_nested_ind.

(** *** Predicates on states *)

(** Does the backer [b] resolve the address [k]? *)
Definition resolves (k : Z) (b : Z * backer_data) : bool :=
  match b.2 with
  | DStr data => (0 <=? k - b.1) && (k - b.1 <? Z.of_nat (length data))
  | DClemory sub => is_ok (__getitem__ sub (k - b.1))
  end.

(** Does a [str] backer of [bs] cover [k]? *)
Definition covered_by_str (bs : list (Z * backer_data)) (k : Z) : bool :=
  existsb (fun b : Z * backer_data =>
             match b.2 with
             | DStr data => (0 <=? k - b.1) && (k - b.1 <? Z.of_nat (length data))
             | DClemory _ => false
             end) bs.

(** Does a nested space among [bs] resolve [k] (at its own [k - start])? *)
Definition resolved_by_nested (bs : list (Z * backer_data)) (k : Z) : bool :=
  existsb (fun b : Z * backer_data =>
             match b.2 with
             | DStr _ => false
             | DClemory sub => is_ok (__getitem__ sub (k - b.1))
             end) bs.

(** [k] is resolvable in [self], and only through a nested space: there
    is no update at [k] and no [str] backer covers it. *)
Definition only_through_nested (self : Clemory) (k : Z) : bool :=
  match _updates self !! k with
  | Some _ => false
  | None => negb (covered_by_str (_backers self) k)
            && resolved_by_nested (_backers self) k
  end.

(** The order on the keys of two list elements. *)
Definition key_le {A : Type} (key : A -> Z) (x y : A) : Prop := key x <= key y.

(** The bases of the backers are in ascending order. *)
Definition backers_sorted (bs : list (Z * backer_data)) : Prop :=
  Sorted Z.le (bs.*1).

(** Every update of [self] is a single byte at an address that some
    backer of [self] resolves. *)
Definition updates_backed (self : Clemory) : Prop :=
  map_Forall (fun k v => (exists c, v = chr_of c) /\
                         existsb (resolves k) (_backers self) = true)
             (_updates self).

(** [updates_backed] for [self] and for every space nested in it. *)
Fixpoint well_backed (self : Clemory) {struct self} : Prop :=
  (fix nested (bs : list (Z * backer_data)) : Prop :=
     match bs with
     | [] => True
     | (_, DStr _) :: bs' => nested bs'
     | (_, DClemory sub) :: bs' => well_backed sub /\ nested bs'
     end) (_backers self)
  /\ updates_backed self.

(** The flattened byte [o] and the outcome [r] of a byte read agree: the
    read returns that byte as a character, or both find nothing. *)
Definition agrees (o : option byte) (r : result value) : Prop :=
  match r with
  | Ok v => exists c, v = chr_of c /\ o = Some c
  | Raise _ => o = None
  end.

(** *** Calls and reachable states *)

(** The methods of [Clemory] that assign to attributes of the object. *)
Inductive method : Type :=
  | Add_backer (start : Z) (data : backer_data)
  | Update_backer (start : Z) (data : backer_data)
  | Setitem (k : Z) (v : value)
  | Write_bytes (addr : Z) (data : list byte)
  | Seek (v : Z)
  | Read (nbytes : Z)
  | Flatten_to_c
  | Read_bytes_c (addr : Z)
  | Setstate (s : option snapshot).

(** The state a call leaves, whether it returns or raises. *)
Definition call (data_lt : backer_data -> backer_data -> bool)
    (op : method) (self : Clemory) : Clemory :=
  match op with
  | Add_backer start data => snd (add_backer data_lt start data self)
  | Update_backer start data => snd (update_backer start data self)
  | Setitem k v => snd (__setitem__ k v self)
  | Write_bytes addr data => snd (write_bytes addr data self)
  | Seek v => snd (seek v self)
  | Read nbytes => snd (read nbytes self)
  | Flatten_to_c => snd (_flatten_to_c self)
  | Read_bytes_c addr => snd (read_bytes_c addr self)
  | Setstate s => snd (__setstate__ s self)
  end.

(** A call of [__setstate__] on a snapshot record: the one call that
    replaces the backers and the updates instead of adding to them. *)
Definition replaces_contents (op : method) : bool :=
  match op with
  | Setstate (Some _) => true
  | _ => false
  end.

(** The snapshot a call of [__setstate__] restores, if the call is one,
    lists its backers in ascending order of base. *)
Definition snapshot_in_order (op : method) : Prop :=
  match op with
  | Setstate (Some s) => Sorted Z.le ((snapshot_backers s).*1)
  | _ => True
  end.

(** A sequence of calls, first to last. *)
Definition run (data_lt : backer_data -> backer_data -> bool)
    (ops : list method) (self : Clemory) : Clemory :=
  fold_left (fun s op => call data_lt op s) ops self.

(** [evolves self self']: [self'] is what the object [self] has become
    after some calls of [add_backer] (of a string, or of a space that has
    itself evolved from a fresh one) and some byte writes, on the object
    itself or, since a backer holds a reference to a nested space and not
    a copy, on a space nested in it.  Each [add_backer] may meet its own
    order [lt] on backer data: Python orders instances by identity, which
    is not a function of their state. *)
Inductive evolves : Clemory -> Clemory -> Prop :=
  | evolves_refl self : evolves self self
  | evolves_add_str self self' lt start data :
      evolves self self' ->
      evolves self (snd (add_backer lt start (DStr data) self'))
  | evolves_add_clemory self self' lt start sub :
      evolves self self' ->
      evolves init sub ->
      evolves self (snd (add_backer lt start (DClemory sub) self'))
  | evolves_setitem self self' k c :
      evolves self self' ->
      evolves self (snd (__setitem__ k (chr_of c) self'))
  | evolves_nested self self' i start sub sub' :
      evolves self self' ->
      _backers self' !! i = Some (start, DClemory sub) ->
      evolves sub sub' ->
      evolves self
        (set_backers (<[i := (start, DClemory sub')]> (_backers self')) self').

(** The states reached from a fresh [Clemory] by [add_backer] and byte
    writes. *)
Definition reachable (self : Clemory) : Prop := evolves init self.

(** *** Concrete spaces *)

(** A stand-in for Python's order on backer data, for examples in which no
    two backers share a base and the order is never consulted. *)
Definition data_lt_unused : backer_data -> backer_data -> bool :=
  fun _ _ => false.

(** Two concrete spaces used to exercise the statements: four bytes at
    [0x1000], and a space that holds the former as a nested backer at
    [0x4000]. *)
Definition demo_flat : Clemory :=
  mkClemory [(4096, DStr ["016"%byte; "032"%byte; "048"%byte; "064"%byte])] ∅ 0 [] true.

Definition demo_nested : Clemory :=
  mkClemory [(16384, DClemory demo_flat)] ∅ 0 [] true.

(** The scenario of the specification: four bytes added at [0x1000], then
    [0x99] written at [0x1002]. *)
Definition demo_added : Clemory :=
  snd (add_backer data_lt_unused 4096
         (DStr ["016"%byte; "032"%byte; "048"%byte; "064"%byte]) init).

Definition demo_written : Clemory :=
  snd (__setitem__ 4098 (chr_of "153"%byte) demo_added).

(** The character [write_bytes(addr, data)] stores for the address [k],
    if [k] lies in the range written. *)
Definition written (addr : Z) (data : list byte) (k : Z) : option byte :=
  if addr <=? k then data !! Z.to_nat (k - addr) else None.

(** The four-byte space after [seek(0x1000)]. *)
Definition demo_seeked : Clemory := snd (seek 4096 demo_flat).

(** The state [update_backer(0x1000, "Z")] leaves on the four-byte space:
    its updates hold a pair, which [_stride_repr] cannot store. *)
Definition demo_updated : Clemory :=
  snd (update_backer 4096 (DStr ["Z"%byte]) demo_flat).

(** Is the data of a backer a string? *)
Definition is_str (b : Z * backer_data) : bool :=
  match b.2 with DStr _ => true | DClemory _ => false end.

(** The addresses [(start, end)] a string backer spans. *)
Definition extent (b : Z * backer_data) : Z * Z :=
  match b.2 with
  | DStr data => (b.1, b.1 + Z.of_nat (length data))
  | DClemory _ => (b.1, b.1)
  end.

(** Where each stride starts and how long it is. *)
Definition layout (out : list stride) : list (Z * nat) :=
  map (fun s : stride => (s.1, length s.2)) out.

(** [s['updates']]. *)
Definition snapshot_updates (s : snapshot) : gmap Z Z :=
  match s with mkSnapshot updates _ => updates end.

(** The backer [b] is what [__setstate__] makes of the snapshot entry
    [sb]: the same base with the same string, or with a fresh space on
    which the nested snapshot was restored. *)
Definition restores (sb : Z * serialdata) (b : Z * backer_data) : Prop :=
  sb.1 = b.1 /\
  match sb.2, b.2 with
  | SStr data, DStr data' => data = data'
  | SClemory (Some s'), DClemory sub => setstate_body s' init = (Ok tt, sub)
  | _, _ => False
  end.

(** A two-byte little-endian unsigned format (["<H"]) to exercise the word
    helpers; the error of [struct] on a value or a string that does not
    fit is rendered by [ValueError]. *)
Definition pack_u16le (v : Z) : result (list byte) :=
  if (0 <=? v) && (v <? 65536) then
    match Byte.of_N (Z.to_N (v mod 256)), Byte.of_N (Z.to_N (v / 256)) with
    | Some lo, Some hi => Ok [lo; hi]
    | _, _ => Raise ValueError
    end
  else Raise ValueError.

Definition unpack_u16le (s : list byte) : result Z :=
  match s with
  | [lo; hi] => Ok (Z.of_N (Byte.to_N lo) + 256 * Z.of_N (Byte.to_N hi))
  | _ => Raise ValueError
  end.

(** * Properties *)

Lemma getitem_unfold self k :
  __getitem__ self k =
  match _updates self !! k with
  | Some v => Ok v
  | None => getitem_backers (_backers self) k
  end.
Proof.
  destruct self as [bs us p cs f]; simpl.
  destruct (us !! k); [reflexivity|].
  induction bs as [|[start [data|data]] bs IH]; simpl; [reflexivity| |].
  - rewrite IH; reflexivity.
  - rewrite IH; reflexivity.
Qed.

Lemma str_index_in_range data i :
  0 <= i < Z.of_nat (length data) ->
  exists c, data !! Z.to_nat i = Some c /\ str_index data i = Ok (chr_of c).
Proof.
  intros Hi. unfold str_index.
  destruct (lookup_lt_is_Some_2 data (Z.to_nat i)) as [c Hc]; [lia|].
  exists c. rewrite Hc. auto.
Qed.

(** [__getitem__] returns a value or raises [KeyError(k)], nothing else. *)
Lemma getitem_cases self : forall k,
  (exists v, __getitem__ self k = Ok v) \/ __getitem__ self k = Raise (KeyError k).
Proof.
  induction self as [self IH] using Clemory_nested_ind. intros k.
  rewrite getitem_unfold. destruct (_updates self !! k) as [v|]; [eauto|].
  induction IH as [|[start [data|data]] bs Hd _ IHbs]; simpl; [auto| |].
  - destruct (_ && _) eqn:E; [|exact IHbs].
    apply andb_true_iff in E as [E1 E2].
    destruct (str_index_in_range data (k - start)) as (c & _ & ->); [lia|eauto].
  - destruct (Hd (k - start)) as [[v ->]| ->]; [eauto|exact IHbs].
Qed.

Lemma getitem_raise self k e :
  __getitem__ self k = Raise e -> e = KeyError k.
Proof.
  destruct (getitem_cases self k) as [[v ->]| ->]; congruence.
Qed.

Lemma contains_spec self k :
  __contains__ self k = Ok (is_ok (__getitem__ self k)).
Proof.
  unfold __contains__.
  destruct (getitem_cases self k) as [[v ->]| ->]; reflexivity.
Qed.

(** ** Byte writes *)

(** C6: [__setitem__] raises its not-backed error ([IndexError(k)]) exactly
    when [__getitem__] raises at [k], and then hands back the state it was
    given; when [__getitem__] returns, it succeeds, the updates become the
    old ones with [k] bound to [v], the flag is set, and the backers, the
    cursor and the C buffers are the ones it was given. *)
Theorem setitem_fails_iff_getitem_fails (self : Clemory) (k : Z) (v : value) :
  match __getitem__ self k with
  | Raise _ => __setitem__ k v self = (Raise (IndexError k), self)
  | Ok _ =>
      exists self',
        __setitem__ k v self = (Ok tt, self') /\
        _updates self' = <[k := v]> (_updates self) /\
        _backers self' = _backers self /\
        _pointer self' = _pointer self /\
        _cbackers self' = _cbackers self /\
        _flattening_needed self' = true
  end.
Proof.
  unfold __setitem__. rewrite contains_spec.
  destruct (__getitem__ self k) as [w|e]; simpl; [|reflexivity].
  eexists; split; [reflexivity|].
  destruct self; simpl; auto.
Qed.

Lemma setitem_ok self k v :
  is_ok (__getitem__ self k) = true ->
  __setitem__ k v self =
  (Ok tt, set_flattening_needed true (set_updates (<[k := v]> (_updates self)) self)).
Proof.
  intros H. unfold __setitem__. rewrite contains_spec, H. reflexivity.
Qed.

(** C7: when [a] is resolvable, [self[a] = v] succeeds and [self[a]]
    right after it returns [v]. *)
Theorem write_then_read (self : Clemory) (a : Z) (v : value) :
  is_ok (__getitem__ self a) = true ->
  fst (__setitem__ a v self) = Ok tt /\
  __getitem__ (snd (__setitem__ a v self)) a = Ok v.
Proof.
  intros H. rewrite (setitem_ok _ _ _ H); cbn [fst snd]. split; [reflexivity|].
  rewrite getitem_unfold. destruct self; cbn.
  rewrite lookup_insert_eq. reflexivity.
Qed.

Lemma write_then_read_witness :
  fst (__setitem__ 4098 (chr_of "153"%byte) demo_flat) = Ok tt /\
  __getitem__ (snd (__setitem__ 4098 (chr_of "153"%byte) demo_flat)) 4098
  = Ok (chr_of "153"%byte).
Proof.
  apply (write_then_read demo_flat 4098 (chr_of "153"%byte)).
  vm_compute. reflexivity.
Defined.

Lemma resolved_by_nested_ok bs k :
  resolved_by_nested bs k = true -> is_ok (getitem_backers bs k) = true.
Proof.
  induction bs as [|[start [data|sub]] bs IH]; simpl; [discriminate| |].
  - intros H. destruct (_ && _) eqn:E; [|auto].
    apply andb_true_iff in E as [E1 E2].
    destruct (str_index_in_range data (k - start)) as (c & _ & ->); [lia|reflexivity].
  - destruct (getitem_cases sub (k - start)) as [[w ->]| ->]; simpl; auto.
Qed.

(** C10: when [k] is resolvable only through a nested space, [self[k] = v]
    succeeds and binds [k] to [v] in the updates of [self]; the backer list
    of [self], and with it every nested space it holds (its own updates and
    backers included), is the one [self] had before. *)
Theorem setitem_leaves_nested (self : Clemory) (k : Z) (v : value) :
  only_through_nested self k = true ->
  exists self',
    __setitem__ k v self = (Ok tt, self') /\
    _updates self' !! k = Some v /\
    _backers self' = _backers self /\
    forall i start sub,
      _backers self !! i = Some (start, DClemory sub) ->
      exists sub',
        _backers self' !! i = Some (start, DClemory sub') /\
        _updates sub' = _updates sub /\ _backers sub' = _backers sub.
Proof.
  unfold only_through_nested. intros H.
  destruct (_updates self !! k) eqn:Hu; [discriminate|].
  apply andb_true_iff in H as [_ H].
  assert (Hok : is_ok (__getitem__ self k) = true).
  { rewrite getitem_unfold, Hu. apply resolved_by_nested_ok, H. }
  rewrite (setitem_ok _ _ _ Hok). eexists; split; [reflexivity|].
  destruct self as [bs us p cs f]; simpl in *.
  rewrite lookup_insert_eq. repeat split.
  intros i start sub Hi. exists sub. auto.
Qed.

Lemma setitem_leaves_nested_witness :
  exists self',
    __setitem__ 20481 (chr_of "153"%byte) demo_nested = (Ok tt, self') /\
    _updates self' !! 20481 = Some (chr_of "153"%byte) /\
    _backers self' = _backers demo_nested /\
    forall i start sub,
      _backers demo_nested !! i = Some (start, DClemory sub) ->
      exists sub',
        _backers self' !! i = Some (start, DClemory sub') /\
        _updates sub' = _updates sub /\ _backers sub' = _backers sub.
Proof.
  apply (setitem_leaves_nested demo_nested 20481 (chr_of "153"%byte)).
  vm_compute. reflexivity.
Defined.

(** ** Replacing a backer *)

Lemma update_backer_loop_backers bs i start data self :
  _backers (update_backer_loop bs i start data self) = _backers self.
Proof.
  revert i. induction bs as [|[oldstart d] bs IH]; intros i; simpl; [reflexivity|].
  destruct (oldstart =? start); [|apply IH]. destruct self; reflexivity.
Qed.

Lemma update_backer_backers start data self :
  _backers (snd (update_backer start data self)) = _backers self.
Proof. apply update_backer_loop_backers. Qed.

Lemma update_backer_loop_no_match bs i start data self :
  Forall (fun b : Z * backer_data => b.1 <> start) bs ->
  update_backer_loop bs i start data self = self.
Proof.
  intros H. revert i. induction H as [|[oldstart d] bs Hne _ IH]; intros i; simpl.
  - reflexivity.
  - simpl in Hne. destruct (Z.eqb_spec oldstart start); [contradiction|apply IH].
Qed.

(** No backer with that base: [update_backer] changes nothing. *)
Lemma update_backer_no_match start data self :
  Forall (fun b : Z * backer_data => b.1 <> start) (_backers self) ->
  update_backer start data self = (Ok tt, self).
Proof.
  intros H. unfold update_backer. rewrite update_backer_loop_no_match; auto.
Qed.

(** C1, at the space with four bytes at [0x1000] and the call
    [update_backer(0x1000, "Z")]: the backer list is the one before the
    call, still holding the old four bytes, and the updates dictionary now
    binds the index [0] of the matching backer to the pair
    [(0x1000, "Z")]. *)
Theorem update_backer_stores_in_updates :
  let self' := snd (update_backer 4096 (DStr ["Z"%byte]) demo_flat) in
  _backers self' = _backers demo_flat /\
  _updates demo_flat !! 0 = None /\
  _updates self' !! 0 = Some (PTuple 4096 (DStr ["Z"%byte])) /\
  __getitem__ self' 4096 = Ok (chr_of "016"%byte).
Proof. vm_compute. repeat split. Qed.

(** ** Bounded access to the flattened view *)

(** What the scan returns for a covering buffer: the pointer
    [cbacker + (addr - start)] and the number [len(cbacker) - start]. *)
Lemma cbackers_scan_first start cbacker cs addr :
  start <= addr < start + Z.of_nat (length cbacker) ->
  cbackers_scan ((start, cbacker) :: cs) addr =
  Ok (mkCdata cbacker (addr - start), Z.of_nat (length cbacker) - start).
Proof.
  intros H. simpl.
  destruct (Z.geb_spec addr start); [|lia].
  destruct (Z.ltb_spec addr (start + Z.of_nat (length cbacker))); [|lia].
  reflexivity.
Qed.

Lemma cbackers_scan_returns cs addr p n :
  cbackers_scan cs addr = Ok (p, n) ->
  In (addr - c_offset p, c_array p) cs /\
  0 <= c_offset p < Z.of_nat (length (c_array p)) /\
  n = Z.of_nat (length (c_array p)) - (addr - c_offset p).
Proof.
  induction cs as [|[start cbacker] cs IH]; simpl; [discriminate|].
  destruct (Z.geb_spec addr start); simpl.
  - destruct (Z.ltb_spec addr (start + Z.of_nat (length cbacker))).
    + intros [= <- <-]. simpl. replace (addr - (addr - start)) with start by lia.
      repeat split; auto with lia.
    + intros Hs. destruct (IH Hs) as (? & ? & ?). auto.
  - intros Hs. destruct (IH Hs) as (? & ? & ?). auto.
Qed.

(** C2, at the space with four bytes at [0x1000] and the address [0x1001]:
    the pointer stands at offset [1] of the run, where three bytes remain,
    and the number returned with it is [4 - 0x1000 = -4092]. *)
Theorem read_bytes_c_length_minus_start :
  fst (read_bytes_c 4097 demo_flat) =
  Ok (mkCdata ["016"%byte; "032"%byte; "048"%byte; "064"%byte] 1, -4092).
Proof. vm_compute. reflexivity. Qed.

(** ** Snapshots *)

Lemma getstate_None self s : __getstate__ self = Ok s -> s = None.
Proof.
  destruct self as [bs us p cs f]. cbn.
  unfold mbind, result_bind.
  repeat match goal with
         | |- context [match ?x with Ok _ => _ | Raise _ => _ end] => destruct x
         end; congruence.
Qed.

(** C4: whatever the space, when [__getstate__] returns it returns [None],
    and [__setstate__] applied to that raises [TypeError] and restores
    nothing. *)
Theorem getstate_setstate_raises (self other : Clemory) :
  match __getstate__ self with
  | Ok s => s = None /\ __setstate__ s other = (Raise TypeError, other)
  | Raise _ => True
  end.
Proof.
  destruct (__getstate__ self) as [s|e] eqn:E; [|exact I].
  apply getstate_None in E. subst s. split; reflexivity.
Qed.

Example getstate_demo_flat :
  __getstate__ demo_flat = Ok None /\
  __setstate__ None init = (Raise TypeError, init).
Proof. vm_compute. split; reflexivity. Qed.

Lemma setstate_body_unfold updates backers self :
  setstate_body (mkSnapshot updates backers) self =
  match dict_comprehension chr updates with
  | Raise e => (Raise e, self)
  | Ok u =>
      match setstate_backers backers (set_backers [] (set_updates u self)) with
      | (Raise e, self') => (Raise e, self')
      | (Ok _, self') => (Ok tt, set_flattening_needed true self')
      end
  end.
Proof. reflexivity. Qed.

Lemma setstate_backers_bases bs : forall self self',
  setstate_backers bs self = (Ok tt, self') ->
  (_backers self').*1 = (_backers self).*1 ++ bs.*1.
Proof.
  induction bs as [|[start [data|[s'|]]] bs IH]; intros self self' H; simpl in H.
  - injection H as <-. rewrite app_nil_r. reflexivity.
  - apply IH in H. rewrite H. destruct self; simpl.
    rewrite fmap_app, <- app_assoc. reflexivity.
  - destruct (setstate_body s' init) as [[[]|e] subdata]; [|discriminate].
    apply IH in H. rewrite H. destruct self; simpl.
    rewrite fmap_app, <- app_assoc. reflexivity.
  - discriminate.
Qed.

(** A successful [__setstate__] installs the backers of the snapshot in
    the order of the snapshot. *)
Lemma setstate_backers_order s self self' :
  setstate_body s self = (Ok tt, self') ->
  (_backers self').*1 = (snapshot_backers s).*1.
Proof.
  destruct s as [updates backers]. rewrite setstate_body_unfold.
  destruct (dict_comprehension chr updates) as [u|e]; [|discriminate].
  destruct (setstate_backers _ _) as [[[]|e] self1] eqn:E; [|discriminate].
  intros [= <-]. apply setstate_backers_bases in E.
  destruct self1, self; simpl in *. exact E.
Qed.

(** Whether it returns or raises, the loop of [__setstate__] has appended
    the first entries of the snapshot, in the order of the snapshot. *)
Lemma setstate_backers_prefix bs : forall self r self',
  setstate_backers bs self = (r, self') ->
  exists n, (_backers self').*1 = (_backers self).*1 ++ take n (bs.*1).
Proof.
  induction bs as [|[start [data|[s'|]]] bs IH]; intros self r self' H; simpl in H.
  - injection H as _ <-. exists 0%nat. rewrite app_nil_r. reflexivity.
  - apply IH in H as (n & H). exists (S n). rewrite H. destruct self; simpl.
    rewrite fmap_app, <- app_assoc. reflexivity.
  - destruct (setstate_body s' init) as [[[]|e] subdata].
    + apply IH in H as (n & H). exists (S n). rewrite H. destruct self; simpl.
      rewrite fmap_app, <- app_assoc. reflexivity.
    + injection H as _ <-. exists 0%nat. rewrite app_nil_r. reflexivity.
  - injection H as _ <-. exists 0%nat. rewrite app_nil_r. reflexivity.
Qed.

Lemma Sorted_take (l : list Z) n : Sorted Z.le l -> Sorted Z.le (take n l).
Proof.
  intros H. apply Sorted_StronglySorted in H; [|intros ???; lia].
  rewrite <- (take_drop n l) in H. apply StronglySorted_app_1_l in H.
  apply StronglySorted_Sorted, H.
Qed.

(** [__setstate__] leaves the backers in ascending order of base when the
    snapshot lists them so, also when it raises part of the way. *)
Lemma setstate_keeps_backers_sorted s self :
  backers_sorted (_backers self) ->
  match s with
  | Some s' => Sorted Z.le ((snapshot_backers s').*1)
  | None => True
  end ->
  backers_sorted (_backers (snd (__setstate__ s self))).
Proof.
  intros Hself Hs. destruct s as [[updates backers]|]; [|exact Hself].
  unfold __setstate__. rewrite setstate_body_unfold.
  destruct (dict_comprehension chr updates) as [u|e]; [|exact Hself].
  destruct (setstate_backers _ _) as [r self1] eqn:E.
  apply setstate_backers_prefix in E as (n & E).
  assert (H1 : backers_sorted (_backers self1)).
  { unfold backers_sorted. rewrite E. destruct self; simpl.
    apply Sorted_take, Hs. }
  destruct r as [[]|e]; [|exact H1]. destruct self1; exact H1.
Qed.

(** ** The stream cursor *)

Lemma read_bytes_loop_raise self cnt : forall i a,
  i <= a < i + Z.of_nat cnt ->
  is_ok (__getitem__ self a) = false ->
  exists a0, i <= a0 <= a /\ read_bytes_loop self i cnt = Raise (KeyError a0).
Proof.
  induction cnt as [|cnt IH]; intros i a Ha Hf; [lia|]. simpl.
  destruct (getitem_cases self i) as [[v Hv]|Hr].
  - rewrite Hv. simpl.
    assert (a <> i) by (intros ->; rewrite Hv in Hf; discriminate).
    destruct (IH (i + 1) a) as (a0 & Ha0 & ->); [lia|assumption|].
    exists a0. split; [lia|reflexivity].
  - rewrite Hr. exists i. split; [lia|reflexivity].
Qed.

(** C5 as stated fails: on the empty space with the cursor at [0],
    [read(2)] raises [KeyError(0)] and the cursor is still [0], not [2]. *)
Lemma read_two_keeps_cursor :
  fst (read 2 init) = Raise (KeyError 0) /\
  _pointer (snd (read 2 init)) = _pointer init /\
  _pointer (snd (read 2 init)) <> _pointer init + 2.
Proof. vm_compute. repeat split. discriminate. Qed.

(** Where [read(n)] leaves the cursor. *)
Lemma read_pointer (self : Clemory) (n : Z) :
  _pointer (snd (read n self)) =
  if (n =? 1) || is_ok (read_bytes self (_pointer self) n)
  then _pointer self + n
  else _pointer self.
Proof.
  unfold read. destruct (Z.eqb_spec n 1) as [->|Hn]; simpl.
  - destruct self; reflexivity.
  - destruct (read_bytes self (_pointer self) n); simpl; [|reflexivity].
    destruct self; reflexivity.
Qed.

(** C5, amended: [read(n)] advances the cursor by [n] when [n] is [1],
    then also when the byte read raises (the cursor is assigned before the
    byte is read), and, for any other [n], when every byte read of the
    range returns. *)
Theorem read_advances_cursor (self : Clemory) (n : Z) :
  n = 1 \/ is_ok (read_bytes self (_pointer self) n) = true ->
  _pointer (snd (read n self)) = _pointer self + n.
Proof.
  intros H. rewrite read_pointer.
  destruct H as [-> | ->]; [reflexivity|]. rewrite orb_true_r. reflexivity.
Qed.

Lemma read_advances_cursor_witness :
  fst (read 1 init) = Raise (KeyError 0) /\
  _pointer (snd (read 1 init)) = _pointer init + 1.
Proof.
  split; [reflexivity|].
  apply (read_advances_cursor init 1). left. reflexivity.
Defined.

Example read_one_moves_cursor :
  fst (read 1 init) = Raise (KeyError 0) /\ _pointer (snd (read 1 init)) = 1.
Proof. vm_compute. split; reflexivity. Qed.

(** C9: for [n >= 2], when some address of [[cursor, cursor+n)] is not
    resolvable, [read(n)] raises [KeyError] for the first such address and
    hands back the very state it was given: cursor, updates, backers and
    the flattened view are untouched. *)
Theorem read_multibyte_atomic (self : Clemory) (n : Z) :
  2 <= n ->
  (exists a, _pointer self <= a < _pointer self + n /\
             is_ok (__getitem__ self a) = false) ->
  exists a0, _pointer self <= a0 < _pointer self + n /\
             is_ok (__getitem__ self a0) = false /\
             read n self = (Raise (KeyError a0), self).
Proof.
  intros Hn (a & Ha & Hf). unfold read.
  destruct (Z.eqb_spec n 1); [lia|]. unfold read_bytes.
  destruct (read_bytes_loop_raise self (Z.to_nat n) (_pointer self) a)
    as (a0 & Ha0 & E); [lia|assumption|].
  rewrite E. exists a0. repeat split; try lia.
  clear -E. revert E. generalize (_pointer self). 
  induction (Z.to_nat n) as [|cnt IH]; intros i; simpl; [discriminate|].
  destruct (getitem_cases self i) as [[v Hv]|Hr].
  - rewrite Hv; simpl. specialize (IH (i + 1)).
    destruct (read_bytes_loop self (i + 1) cnt); simpl; [discriminate|].
    intros [= ->]. auto.
  - rewrite Hr; simpl. intros [= <-]. rewrite Hr. reflexivity.
Qed.

Lemma read_multibyte_atomic_witness :
  exists a0, _pointer init <= a0 < _pointer init + 2 /\
             is_ok (__getitem__ init a0) = false /\
             read 2 init = (Raise (KeyError a0), init).
Proof.
  apply (read_multibyte_atomic init 2); [lia|].
  exists 0. split; [vm_compute; split; [discriminate|reflexivity]|reflexivity].
Defined.

(** ** The order of the backers *)

Section Bisect_sorted.
Context {A : Type} (lt : A -> A -> bool) (key : A -> Z).
Hypothesis lt_true : forall x y, lt x y = true -> key x <= key y.
Hypothesis lt_false : forall x y, lt x y = false -> key y <= key x.

Lemma StronglySorted_lookup_le (a : list A) : StronglySorted (key_le key) a ->
  forall i j y y', (i <= j)%nat -> a !! i = Some y -> a !! j = Some y' ->
  key y <= key y'.
Proof.
  induction 1 as [|x a Hs IH Hx]; intros i j y y' Hij Hi Hj.
  - discriminate.
  - destruct i as [|i], j as [|j]; simpl in *; try lia.
    + injection Hi as <-; injection Hj as <-. lia.
    + injection Hi as <-. rewrite Forall_lookup in Hx. exact (Hx _ _ Hj).
    + apply (IH i j); auto with lia.
Qed.

(** The binary search keeps to the left of [lo] only elements whose key
    is at most that of [x], and to the right of [hi] only elements whose
    key is at least that of [x]; with [hi - lo] units of fuel the loop
    runs until [lo = hi]. *)
Lemma bisect_loop_spec (a : list A) (x : A) : StronglySorted (key_le key) a ->
  forall fuel lo hi,
  (lo <= hi <= length a)%nat -> (hi - lo <= fuel)%nat ->
  (forall j y, (j < lo)%nat -> a !! j = Some y -> key y <= key x) ->
  (forall j y, (hi <= j)%nat -> a !! j = Some y -> key x <= key y) ->
  let p := bisect_loop lt fuel a x lo hi in
  (p <= length a)%nat /\
  (forall j y, (j < p)%nat -> a !! j = Some y -> key y <= key x) /\
  (forall j y, (p <= j)%nat -> a !! j = Some y -> key x <= key y).
Proof.
  intros Hs. induction fuel as [|fuel IH]; intros lo hi Hb Hf Hlo Hhi;
    cbn [bisect_loop].
  - assert (lo = hi) by lia. subst hi. repeat split; auto with lia.
  - destruct (Nat.ltb_spec lo hi) as [Hlt|Hge].
    2:{ assert (lo = hi) by lia. subst hi. repeat split; auto with lia. }
    assert (Hmid : (lo <= (lo + hi) / 2 < hi)%nat).
    { split; [apply Nat.div_le_lower_bound|apply Nat.Div0.div_lt_upper_bound]; lia. }
    destruct (lookup_lt_is_Some_2 a ((lo + hi) / 2)) as [y Hy]; [lia|].
    rewrite Hy. destruct (lt x y) eqn:E.
    + apply IH; auto with lia.
      intros j y' Hj Hy'. apply lt_true in E.
      pose proof (StronglySorted_lookup_le a Hs _ _ _ _ Hj Hy Hy'). lia.
    + apply IH; auto with lia.
      intros j y' Hj Hy'. apply lt_false in E.
      assert (Hj' : (j <= (lo + hi) / 2)%nat) by lia.
      pose proof (StronglySorted_lookup_le a Hs _ _ _ _ Hj' Hy' Hy). lia.
Qed.

Lemma insort_sorted (a : list A) (x : A) :
  StronglySorted (key_le key) a -> StronglySorted (key_le key) (insort lt a x).
Proof.
  intros Hs. unfold insort, bisect_right, list_insert_at.
  destruct (bisect_loop_spec a x Hs (length a) 0%nat (length a))
    as (Hp & Hl & Hr); [lia|lia|intros; lia| |].
  { intros j y Hj Hy. apply lookup_lt_Some in Hy. lia. }
  set (p := bisect_loop lt (length a) a x 0 (length a)) in *.
  pose proof Hs as Hs'. rewrite <- (take_drop p a) in Hs'.
  apply StronglySorted_app in Hs' as (Hcross & Hs1 & Hs2).
  apply StronglySorted_app_2; [|assumption|].
  - intros x1 x2 H1 H2. apply elem_of_cons in H2 as [->|H2]; [|auto].
    apply elem_of_take in H1 as (i & Hi & Hip). exact (Hl _ _ Hip Hi).
  - constructor; [assumption|]. apply Forall_lookup. intros i y Hy.
    rewrite lookup_drop in Hy. apply (Hr _ _ (Nat.le_add_r p i) Hy).
Qed.
End Bisect_sorted.

Lemma backers_sorted_strong bs :
  backers_sorted bs <-> StronglySorted (key_le fst) bs.
Proof.
  unfold backers_sorted. split.
  - intros H. apply Sorted_StronglySorted in H; [|intros ???; lia].
    induction bs as [|b bs IH]; [constructor|].
    rewrite fmap_cons in H. apply StronglySorted_inv in H as [H1 H2].
    constructor; [auto|]. rewrite Forall_fmap in H2. exact H2.
  - intros H. apply StronglySorted_Sorted.
    apply (StronglySorted_fmap fst (key_le fst) Z.le);
      [auto|exact H].
Qed.

Section Sorted_backers.
Variable data_lt : backer_data -> backer_data -> bool.

Lemma backer_lt_true x y : backer_lt data_lt x y = true -> x.1 <= y.1.
Proof. unfold backer_lt. destruct (Z.eqb_spec x.1 y.1); [lia|]. lia. Qed.

Lemma backer_lt_false x y : backer_lt data_lt x y = false -> y.1 <= x.1.
Proof. unfold backer_lt. destruct (Z.eqb_spec x.1 y.1); [lia|]. lia. Qed.

Lemma insort_backers_sorted bs b :
  backers_sorted bs -> backers_sorted (insort (backer_lt data_lt) bs b).
Proof.
  rewrite !backers_sorted_strong.
  apply (insort_sorted _ fst backer_lt_true backer_lt_false).
Qed.

Lemma add_backer_sorted start data self :
  backers_sorted (_backers self) ->
  backers_sorted (_backers (snd (add_backer data_lt start data self))).
Proof.
  intros H. unfold add_backer. rewrite contains_spec.
  destruct (is_ok _); simpl; [assumption|].
  destruct self; simpl in *. apply insort_backers_sorted, H.
Qed.
End Sorted_backers.

Lemma setitem_backers k v self :
  _backers (snd (__setitem__ k v self)) = _backers self.
Proof.
  unfold __setitem__. rewrite contains_spec.
  destruct (is_ok _); simpl; [|reflexivity]. destruct self; reflexivity.
Qed.

Lemma write_bytes_loop_backers addr data : forall i self,
  _backers (snd (write_bytes_loop addr i data self)) = _backers self.
Proof.
  induction data as [|c data IH]; intros i self; simpl; [reflexivity|].
  pose proof (setitem_backers (addr + i) (chr_of c) self) as H.
  destruct (__setitem__ (addr + i) (chr_of c) self) as [[[]|e] self']; simpl in *.
  - rewrite IH. exact H.
  - exact H.
Qed.

Lemma write_bytes_backers addr data self :
  _backers (snd (write_bytes addr data self)) = _backers self.
Proof. apply write_bytes_loop_backers. Qed.

Lemma seek_backers v self : _backers (snd (seek v self)) = _backers self.
Proof. destruct self; reflexivity. Qed.

Lemma read_backers n self : _backers (snd (read n self)) = _backers self.
Proof.
  unfold read. destruct (n =? 1); simpl; [destruct self; reflexivity|].
  destruct (read_bytes _ _ _); simpl; destruct self; reflexivity.
Qed.

Lemma flatten_to_c_backers self :
  _backers (snd (_flatten_to_c self)) = _backers self.
Proof.
  unfold _flatten_to_c. destruct (_stride_repr _); simpl; destruct self; reflexivity.
Qed.

Lemma read_bytes_c_backers addr self :
  _backers (snd (read_bytes_c addr self)) = _backers self.
Proof.
  unfold read_bytes_c. destruct (_flattening_needed self).
  - pose proof (flatten_to_c_backers self) as H.
    destruct (_flatten_to_c self) as [[[]|e] self']; simpl in *; exact H.
  - reflexivity.
Qed.

(** The methods other than [add_backer] hand back the backers they were
    given. *)
Create Rewrite HintDb backers.
#[local] Hint Rewrite update_backer_backers setitem_backers write_bytes_backers
  seek_backers read_backers flatten_to_c_backers read_bytes_c_backers : backers.



(** ** The flattened view against byte reads *)

Lemma stride_repr_unfold self :
  _stride_repr self =
  out ← stride_backers (_backers self);
  apply_updates (map_to_list (_updates self)) out.
Proof.
  destruct self as [bs us p cs f]. reflexivity.
Qed.

Section Strides.
Implicit Types (out : list stride) (k key : Z).

Lemma covered_lookup (data : list byte) start k :
  start <= k < start + Z.of_nat (length data) ->
  is_Some (data !! Z.to_nat (k - start)).
Proof. intros H. apply lookup_lt_is_Some_2. lia. Qed.

Lemma strides_read_app out1 out2 k :
  strides_read (out1 ++ out2) k =
  match strides_read out1 k with
  | Some c => Some c
  | None => strides_read out2 k
  end.
Proof.
  induction out1 as [|[start data] out1 IH]; simpl; [reflexivity|].
  destruct (_ && _) eqn:E; [|exact IH].
  apply andb_true_iff in E as [E1 E2].
  destruct (covered_lookup data start k) as [c ->]; [lia|reflexivity].
Qed.

Lemma strides_read_shift start out k :
  strides_read (map (shift_stride start) out) k = strides_read out (k - start).
Proof.
  induction out as [|[s data] out IH]; simpl; [reflexivity|].
  rewrite IH.
  replace (s + start <=? k) with (s <=? k - start) by lia.
  replace (k <? s + start + Z.of_nat (length data))
    with (k - start <? s + Z.of_nat (length data)) by lia.
  replace (k - (s + start)) with (k - start - s) by lia. reflexivity.
Qed.

(** One update: it succeeds on a byte whose address is covered, and
    afterwards the strides hold that byte at [key] and what they held
    elsewhere. *)
Lemma apply_update_spec key c out :
  is_Some (strides_read out key) ->
  exists out',
    apply_update key (chr_of c) out = Ok out' /\
    forall k, strides_read out' k =
              if decide (k = key) then Some c else strides_read out k.
Proof.
  induction out as [|[start data] out IH]; simpl; intros Hc.
  { destruct Hc; discriminate. }
  destruct (_ && _) eqn:E.
  - apply andb_true_iff in E as [E1 E2].
    eexists; split; [reflexivity|]. intros k; simpl.
    rewrite length_insert. destruct (decide (k = key)) as [->|Hne].
    + rewrite E1, E2; simpl. apply list_lookup_insert_eq. lia.
    + destruct (_ && _) eqn:E'; [|reflexivity].
      apply andb_true_iff in E' as [E1' E2'].
      apply list_lookup_insert_ne. lia.
  - destruct (IH Hc) as (out' & -> & Hout'). 
    eexists; split; [reflexivity|]. intros k; simpl.
    destruct ((start <=? k) && _) eqn:E'; [|apply Hout'].
    destruct (decide (k = key)) as [->|Hne]; [congruence|reflexivity].
Qed.

(** All updates: with distinct keys, byte values and covered addresses
    the loop succeeds, and the strides then hold the update where there
    is one and what they held elsewhere. *)
Lemma apply_updates_spec (us : list (Z * value)) : forall out,
  NoDup (us.*1) ->
  Forall (fun kv => (exists c, kv.2 = chr_of c) /\
                    is_Some (strides_read out kv.1)) us ->
  exists out',
    apply_updates us out = Ok out' /\
    forall k, strides_read out' k =
              match (list_to_map us : gmap Z value) !! k with
              | Some v => match v with PStr [c] => Some c | _ => None end
              | None => strides_read out k
              end.
Proof.
  induction us as [|[key val] us IH]; intros out Hnd Hall.
  { exists out. split; [reflexivity|]. intros k.
    change (list_to_map [] : gmap Z value) with (∅ : gmap Z value).
    rewrite lookup_empty. reflexivity. }
  rewrite fmap_cons in Hnd. apply NoDup_cons in Hnd as [Hnotin Hnd].
  apply Forall_cons in Hall as [[[c Hval] Hcov] Hall]. simpl in Hval, Hcov. subst val.
  destruct (apply_update_spec key c out Hcov) as (out1 & E1 & H1).
  destruct (IH out1 Hnd) as (out' & E' & H').
  { eapply Forall_impl; [exact Hall|]. intros [k v] [Hv Hk]; split; [exact Hv|].
    simpl in *. rewrite H1. destruct (decide (k = key)); [eauto|exact Hk]. }
  exists out'. split.
  { simpl. rewrite E1. exact E'. }
  intros k. rewrite H', H1. simpl.
  destruct (decide (k = key)) as [->|Hne].
  - rewrite lookup_insert_eq.
    rewrite (not_elem_of_list_to_map_1 us key Hnotin). reflexivity.
  - rewrite lookup_insert_ne by congruence. reflexivity.
Qed.

(** The scan of [read_bytes_c] finds the stride [strides_read] reads
    from, or raises [KeyError] when none covers the address. *)
Lemma cbackers_scan_spec out k :
  match strides_read out k with
  | Some c => exists p n, cbackers_scan out k = Ok (p, n) /\
                          cdata_index p 0 = Some c
  | None => cbackers_scan out k = Raise (KeyError k)
  end.
Proof.
  induction out as [|[start data] out IH]; simpl; [reflexivity|].
  replace (k >=? start) with (start <=? k) by lia.
  destruct (_ && _) eqn:E; [|exact IH].
  apply andb_true_iff in E as [E1 E2].
  destruct (covered_lookup data start k) as [c Hc]; [lia|]. rewrite Hc.
  eexists _, _; split; [reflexivity|]. unfold cdata_index; simpl.
  rewrite Z.add_0_r. destruct (Z.leb_spec 0 (k - start)); [exact Hc|lia].
Qed.
End Strides.

Lemma well_backed_unfold self :
  well_backed self <->
  Forall (on_nested well_backed) (_backers self) /\ updates_backed self.
Proof.
  destruct self as [bs us p cs f]. cbn [well_backed _backers].
  apply and_iff_compat_r.
  induction bs as [|[start [data|sub]] bs IH].
  - split; [constructor|exact (fun _ => I)].
  - rewrite Forall_cons, <- IH. unfold on_nested at 1; simpl. tauto.
  - rewrite Forall_cons, <- IH. unfold on_nested at 1; simpl. tauto.
Qed.

Lemma getitem_backers_ok bs k :
  is_ok (getitem_backers bs k) = existsb (resolves k) bs.
Proof.
  induction bs as [|[start [data|sub]] bs IH]; simpl; [reflexivity| |].
  - unfold resolves at 1; simpl. destruct (_ && _) eqn:E; [|exact IH].
    apply andb_true_iff in E as [E1 E2].
    destruct (str_index_in_range data (k - start)) as (c & _ & ->); [lia|reflexivity].
  - unfold resolves at 1; simpl.
    destruct (getitem_cases sub (k - start)) as [[w ->]| ->]; simpl; auto.
Qed.

(** The strides of the backers alone agree with the scan of
    [__getitem__] over the backers, once those of every nested space agree
    with the reads of that space. *)
Lemma stride_backers_agrees bs :
  Forall (on_nested (fun sub => exists out,
            _stride_repr sub = Ok out /\
            forall k, agrees (strides_read out k) (__getitem__ sub k))) bs ->
  exists out,
    stride_backers bs = Ok out /\
    forall k, agrees (strides_read out k) (getitem_backers bs k).
Proof.
  induction 1 as [|[start [data|sub]] bs Hd _ (out & E & IH)].
  - exists []. split; [reflexivity|]. intros k. reflexivity.
  - exists ((start, data) :: out). split; [simpl; rewrite E; reflexivity|].
    intros k. simpl.
    replace (start <=? k) with (0 <=? k - start) by lia.
    replace (k <? start + Z.of_nat (length data))
      with (k - start <? Z.of_nat (length data)) by lia.
    destruct (_ && _) eqn:Ec; [|apply IH].
    apply andb_true_iff in Ec as [E1 E2].
    destruct (str_index_in_range data (k - start)) as (c & Hc & ->); [lia|].
    exists c. auto.
  - destruct Hd as (sub_out & Es & Hs). unfold on_nested in Hs.
    exists (map (shift_stride start) sub_out ++ out).
    split; [simpl; rewrite Es, E; reflexivity|].
    intros k. simpl. rewrite strides_read_app, strides_read_shift.
    specialize (Hs (k - start)).
    destruct (getitem_cases sub (k - start)) as [[w Hw]|Hr].
    + rewrite Hw in *. destruct Hs as (c & -> & ->). exists c. auto.
    + rewrite Hr in *. simpl in Hs. rewrite Hs. apply IH.
Qed.

(** In a well-backed space [_stride_repr] returns, and what its strides
    hold at any address is what [__getitem__] gives there. *)
Lemma stride_repr_agrees self :
  well_backed self ->
  exists out,
    _stride_repr self = Ok out /\
    forall k, agrees (strides_read out k) (__getitem__ self k).
Proof.
  induction self as [self IH] using Clemory_nested_ind.
  rewrite well_backed_unfold. intros [Hn Hu].
  destruct (stride_backers_agrees (_backers self)) as (out0 & E0 & H0).
  { rewrite Forall_forall in *. intros b Hb.
    specialize (IH b Hb). specialize (Hn b Hb).
    unfold on_nested in *. destruct b.2; auto. }
  destruct (apply_updates_spec (map_to_list (_updates self)) out0)
    as (out & E & H).
  { apply NoDup_fst_map_to_list. }
  { apply Forall_forall. intros [k v] Hkv. apply elem_of_map_to_list in Hkv.
    destruct (Hu k v Hkv) as [Hv Hk]. split; [exact Hv|]. simpl.
    rewrite <- getitem_backers_ok in Hk. specialize (H0 k).
    destruct (getitem_backers (_backers self) k); [|discriminate].
    destruct H0 as (c & _ & ->). eauto. }
  exists out. split.
  { rewrite stride_repr_unfold, E0. exact E. }
  intros k. rewrite H, list_to_map_to_list, getitem_unfold.
  destruct (_updates self !! k) as [v|] eqn:Ek; [|apply H0].
  destruct (Hu k v Ek) as [[c ->] _]. exists c. auto.
Qed.

Lemma existsb_list_insert_at {A} (f : A -> bool) (a : list A) i x :
  existsb f a = true -> existsb f (list_insert_at a i x) = true.
Proof.
  unfold list_insert_at. rewrite <- (take_drop i a) at 1.
  rewrite !existsb_app. simpl.
  destruct (existsb f (take i a)), (f x); auto.
Qed.

Lemma existsb_insert_mono {A} (f : A -> bool) (a : list A) i x x' :
  a !! i = Some x -> (f x = true -> f x' = true) ->
  existsb f a = true -> existsb f (<[i := x']> a) = true.
Proof.
  revert i. induction a as [|y a IH]; intros [|i] Hi Hf; simpl in *;
    try discriminate.
  - injection Hi as ->. intros H. destruct (f x); simpl in *.
    + rewrite Hf; auto.
    + destruct (f x'); auto.
  - intros H. destruct (f y); simpl in *; [reflexivity|]. eapply IH; eauto.
Qed.

Lemma Forall_list_insert_at {A} (P : A -> Prop) (a : list A) i x :
  Forall P a -> P x -> Forall P (list_insert_at a i x).
Proof.
  intros Ha Hx. unfold list_insert_at. apply Forall_app. split.
  - apply Forall_take, Ha.
  - constructor; [exact Hx|apply Forall_drop, Ha].
Qed.

Lemma getitem_ok_iff self k :
  is_ok (__getitem__ self k) =
  match _updates self !! k with
  | Some _ => true
  | None => existsb (resolves k) (_backers self)
  end.
Proof.
  rewrite getitem_unfold. destruct (_updates self !! k); [reflexivity|].
  apply getitem_backers_ok.
Qed.

Lemma well_backed_init : well_backed init.
Proof.
  apply well_backed_unfold. split; [constructor|].
  unfold updates_backed. apply map_Forall_empty.
Qed.

Section Add_backer_invariants.
Variable data_lt : backer_data -> backer_data -> bool.

Lemma add_backer_well_backed start data self :
  well_backed self -> on_nested well_backed (start, data) ->
  well_backed (snd (add_backer data_lt start data self)).
Proof.
  intros Hw Hd. unfold add_backer. rewrite contains_spec.
  destruct (is_ok _); cbn [snd]; [exact Hw|].
  apply well_backed_unfold in Hw as [Hn Hu]. apply well_backed_unfold.
  destruct self as [bs us p cs f]; simpl in *. split.
  - apply Forall_list_insert_at; assumption.
  - intros k v Hkv. destruct (Hu k v Hkv) as [Hv Hk]. split; [exact Hv|].
    simpl in *. apply existsb_list_insert_at, Hk.
Qed.

Lemma add_backer_resolves start data self k :
  is_ok (__getitem__ self k) = true ->
  is_ok (__getitem__ (snd (add_backer data_lt start data self)) k) = true.
Proof.
  unfold add_backer. rewrite contains_spec.
  destruct (is_ok (__getitem__ self start)); cbn [snd]; [auto|].
  rewrite !getitem_ok_iff. destruct self as [bs us p cs f]; simpl.
  destruct (us !! k); [auto|]. apply existsb_list_insert_at.
Qed.

Lemma add_backer_flattening_needed start data self :
  _flattening_needed self = true ->
  _flattening_needed (snd (add_backer data_lt start data self)) = true.
Proof.
  unfold add_backer. rewrite contains_spec. destruct (is_ok _); auto.
Qed.
End Add_backer_invariants.

Lemma setitem_well_backed k c self :
  well_backed self -> well_backed (snd (__setitem__ k (chr_of c) self)).
Proof.
  intros Hw. unfold __setitem__. rewrite contains_spec.
  destruct (is_ok _) eqn:Hok; cbn [snd]; [|exact Hw].
  apply well_backed_unfold in Hw as [Hn Hu]. apply well_backed_unfold.
  rewrite getitem_ok_iff in Hok.
  destruct self as [bs us p cs f]; simpl in *. split; [exact Hn|].
  apply map_Forall_insert_2; [|exact Hu]. split; [eauto|]. simpl.
  destruct (us !! k) as [v|] eqn:Ek; [apply (Hu k v Ek)|exact Hok].
Qed.

Lemma setitem_resolves k v self k' :
  is_ok (__getitem__ self k') = true ->
  is_ok (__getitem__ (snd (__setitem__ k v self)) k') = true.
Proof.
  unfold __setitem__. rewrite contains_spec.
  destruct (is_ok (__getitem__ self k)); cbn [snd]; [|auto].
  rewrite !getitem_ok_iff. destruct self as [bs us p cs f]; simpl.
  destruct (decide (k = k')) as [->|Hne].
  - rewrite lookup_insert_eq. auto.
  - rewrite lookup_insert_ne by exact Hne. auto.
Qed.

Lemma setitem_flattening_needed k v self :
  _flattening_needed self = true ->
  _flattening_needed (snd (__setitem__ k v self)) = true.
Proof.
  unfold __setitem__. rewrite contains_spec. destruct (is_ok _); auto.
Qed.

(** What a space resolves it keeps resolving, and a backer replaced by one
    that resolves at least as much keeps every update backed. *)
Lemma nested_step_well_backed self i start sub sub' :
  _backers self !! i = Some (start, DClemory sub) ->
  (well_backed sub -> well_backed sub') ->
  (forall k, is_ok (__getitem__ sub k) = true ->
             is_ok (__getitem__ sub' k) = true) ->
  well_backed self ->
  well_backed (set_backers (<[i := (start, DClemory sub')]> (_backers self)) self).
Proof.
  intros Hi Hw Hres. rewrite !well_backed_unfold. intros [Hn Hu].
  destruct self as [bs us p cs f]; simpl in *. split.
  - apply Forall_insert; [exact Hn|].
    apply (Forall_lookup_1 _ _ _ _ Hn) in Hi. apply Hw, Hi.
  - intros k v Hkv. destruct (Hu k v Hkv) as [Hv Hk]. split; [exact Hv|].
    simpl in *. refine (existsb_insert_mono _ _ _ _ _ Hi _ Hk). apply Hres.
Qed.

Lemma nested_step_resolves self i start sub sub' k :
  _backers self !! i = Some (start, DClemory sub) ->
  (forall k, is_ok (__getitem__ sub k) = true ->
             is_ok (__getitem__ sub' k) = true) ->
  is_ok (__getitem__ self k) = true ->
  is_ok (__getitem__
           (set_backers (<[i := (start, DClemory sub')]> (_backers self)) self) k)
  = true.
Proof.
  intros Hi Hres. rewrite !getitem_ok_iff.
  destruct self as [bs us p cs f]; simpl in *.
  destruct (us !! k); [auto|].
  apply (existsb_insert_mono _ _ _ _ _ Hi). apply Hres.
Qed.

(** Along [evolves], well-backedness, resolvability of every address and
    the staleness of the view are kept. *)
Lemma evolves_invariants self self' :
  evolves self self' ->
  (well_backed self -> well_backed self') /\
  (forall k, is_ok (__getitem__ self k) = true ->
             is_ok (__getitem__ self' k) = true) /\
  (_flattening_needed self = true -> _flattening_needed self' = true).
Proof.
  induction 1 as [self
                 |self self' lt start data _ (IHw & IHr & IHf)
                 |self self' lt start sub _ (IHw & IHr & IHf) _ (IHsub & _)
                 |self self' k c _ (IHw & IHr & IHf)
                 |self self' i start sub sub' _ (IHw & IHr & IHf) Hi _
                    (IHsw & IHsr & _)].
  - auto.
  - split; [|split].
    + intros Hw. apply add_backer_well_backed; [auto|exact I].
    + intros k Hk. apply add_backer_resolves; auto.
    + intros Hf. apply add_backer_flattening_needed; auto.
  - split; [|split].
    + intros Hw. apply add_backer_well_backed; [auto|].
      apply IHsub, well_backed_init.
    + intros k Hk. apply add_backer_resolves; auto.
    + intros Hf. apply add_backer_flattening_needed; auto.
  - split; [|split].
    + intros Hw. apply setitem_well_backed; auto.
    + intros k' Hk. apply setitem_resolves; auto.
    + intros Hf. apply setitem_flattening_needed; auto.
  - split; [|split].
    + intros Hw. apply (nested_step_well_backed _ _ _ sub); auto.
    + intros k Hk. apply (nested_step_resolves _ _ _ sub); auto.
    + intros Hf. specialize (IHf Hf). destruct self'; exact IHf.
Qed.

Lemma reachable_well_backed self : reachable self -> well_backed self.
Proof.
  intros H. apply evolves_invariants in H as (Hw & _ & _).
  apply Hw, well_backed_init.
Qed.

Lemma reachable_flattening_needed self :
  reachable self -> _flattening_needed self = true.
Proof.
  intros H. apply evolves_invariants in H as (_ & _ & Hf).
  apply Hf. reflexivity.
Qed.

(** Rebuilding the view of a well-backed space and reading through it. *)
Lemma flatten_then_scan self k :
  well_backed self ->
  exists out,
    _flatten_to_c self =
      (Ok tt, set_cbackers out (set_flattening_needed false self)) /\
    _stride_repr self = Ok out /\
    agrees (strides_read out k) (__getitem__ self k).
Proof.
  intros Hw. destruct (stride_repr_agrees self Hw) as (out & E & H).
  exists out. repeat split; [|exact E|apply H].
  unfold _flatten_to_c.
  assert (E' : _stride_repr (set_flattening_needed false self) = Ok out).
  { rewrite stride_repr_unfold in *. destruct self; exact E. }
  rewrite E'. reflexivity.
Qed.

(** C3: in a state reached from a fresh space by [add_backer] and byte
    writes, at every address [a] where [__getitem__] returns, it returns a
    single byte, [read_bytes_c] rebuilds the view from [_stride_repr] and
    returns a pointer into one of its strides at which that same byte
    stands; where [__getitem__] raises, no stride covers [a] and
    [read_bytes_c] raises [KeyError(a)]. *)
Theorem flattened_view_matches_getitem (self : Clemory) (a : Z) :
  reachable self ->
  match __getitem__ self a with
  | Ok v =>
      exists out p n c,
        _stride_repr self = Ok out /\
        fst (read_bytes_c a self) = Ok (p, n) /\
        In (a - c_offset p, c_array p) out /\
        cdata_index p 0 = Some c /\ v = chr_of c
  | Raise _ => fst (read_bytes_c a self) = Raise (KeyError a)
  end.
Proof.
  intros Hr.
  pose proof (reachable_well_backed _ Hr) as Hw.
  pose proof (reachable_flattening_needed _ Hr) as Hf.
  destruct (flatten_then_scan self a Hw) as (out & Efl & Es & Hag).
  unfold read_bytes_c. rewrite Hf, Efl.
  assert (Ec : _cbackers (set_cbackers out (set_flattening_needed false self)) = out)
    by (destruct self; reflexivity).
  cbn [fst]. rewrite Ec. clear Ec Efl.
  pose proof (cbackers_scan_spec out a) as Hscan.
  destruct (__getitem__ self a) as [v|e]; simpl in Hag.
  - destruct Hag as (c & -> & Hc). rewrite Hc in Hscan.
    destruct Hscan as (p & n & Ep & Hp).
    exists out, p, n, c. repeat split; auto.
    clear -Ep. induction out as [|[start data] out IH]; simpl in Ep; [discriminate|].
    destruct (_ && _).
    + injection Ep as <- _. simpl. left. f_equal. lia.
    + right. auto.
  - rewrite Hag in Hscan. exact Hscan.
Qed.

(** From a fresh space, the backers are in ascending order of base after
    any sequence of calls that restores only snapshots in order. *)
Lemma run_keeps_backers_sorted data_lt ops :
  Forall snapshot_in_order ops ->
  backers_sorted (_backers (run data_lt ops init)).
Proof.
  unfold run. assert (H : backers_sorted (_backers init)) by constructor.
  revert H. generalize init.
  induction ops as [|op ops IH]; intros self H Hops.
  - exact H.
  - apply Forall_cons in Hops as [Hop Hops]. simpl. apply IH; [|exact Hops].
    destruct op; cbn [call];
      [apply add_backer_sorted, H | autorewrite with backers; exact H .. |].
    apply setstate_keeps_backers_sorted; [exact H|]. destruct s; exact Hop.
Qed.

Lemma flattened_view_matches_getitem_witness :
  exists out p n c,
    _stride_repr demo_written = Ok out /\
    fst (read_bytes_c 4098 demo_written) = Ok (p, n) /\
    In (4098 - c_offset p, c_array p) out /\
    cdata_index p 0 = Some c /\ chr_of "153"%byte = chr_of c.
Proof.
  exact (flattened_view_matches_getitem demo_written 4098
           (evolves_setitem _ _ _ _
              (evolves_add_str _ _ data_lt_unused _ _ (evolves_refl init)))).
Defined.


(** A snapshot in order, restored on a space with backers: the bases are
    those of the snapshot. *)
Example setstate_sorted_snapshot :
  let s := mkSnapshot ∅ [(256, SStr ["A"%byte]); (512, SStr ["B"%byte])] in
  snapshot_in_order (Setstate (Some s)) /\
  (_backers (call data_lt_unused (Setstate (Some s)) demo_flat)).*1 = [256; 512].
Proof.
  split; [|reflexivity]. simpl. repeat constructor. lia.
Qed.

(** ** The scenario of the specification *)

Example scenario_reads :
  __getitem__ demo_added 4097 = Ok (chr_of "032"%byte) /\
  __getitem__ demo_written 4098 = Ok (chr_of "153"%byte) /\
  __getitem__ demo_written 4099 = Ok (chr_of "064"%byte) /\
  _stride_repr demo_written =
    Ok [(4096, ["016"%byte; "032"%byte; "153"%byte; "064"%byte])] /\
  fst (__setitem__ 20480 (chr_of "001"%byte) init) = Raise (IndexError 20480) /\
  fst (add_backer data_lt_unused 256 (DStr ["A"%byte])
         (snd (add_backer data_lt_unused 256 (DStr ["A"%byte; "B"%byte]) init)))
  = Raise ValueError.
Proof. vm_compute. repeat split. Qed.

Example scenario_nested :
  __getitem__ demo_nested 20481 = Ok (chr_of "032"%byte) /\
  _stride_repr demo_nested =
    Ok [(20480, ["016"%byte; "032"%byte; "048"%byte; "064"%byte])] /\
  fst (read_bytes_c 20481 demo_nested) =
    Ok (mkCdata ["016"%byte; "032"%byte; "048"%byte; "064"%byte] 1, -20476) /\
  __getitem__ demo_nested 20484 = Raise (KeyError 20484).
Proof. vm_compute. repeat split. Qed.

(** A nested space that grows after it was added: the outer space
    resolves the new address and its view follows. *)
Example scenario_nested_grows :
  let sub' := snd (add_backer data_lt_unused 8192 (DStr ["A"%byte]) demo_flat) in
  let outer := set_backers (<[0%nat := (16384, DClemory sub')]> (_backers demo_nested))
                           demo_nested in
  __getitem__ demo_nested 24576 = Raise (KeyError 24576) /\
  __getitem__ outer 24576 = Ok (chr_of "A"%byte) /\
  _stride_repr outer =
    Ok [(20480, ["016"%byte; "032"%byte; "048"%byte; "064"%byte]);
        (24576, ["A"%byte])].
Proof. vm_compute. repeat split. Qed.

Example insort_positions :
  (_backers (call data_lt_unused (Add_backer 256 (DStr ["A"%byte; "B"%byte]))
                  demo_flat)).*1 = [256; 4096] /\
  (_backers (call data_lt_unused (Add_backer 8192 (DStr ["A"%byte]))
                  demo_flat)).*1 = [4096; 8192].
Proof. vm_compute. split; reflexivity. Qed.

(** * Further properties of the methods *)

(** ** Membership and byte reads *)

(** X1: [k in self] never raises; it is [True] exactly when [self[k]]
    returns a value, and when it is [False], [self[k]] raises [KeyError]
    for [k] itself, also when the miss happened in a nested space at
    [k - start]. *)
Theorem contains_iff_getitem_returns (self : Clemory) (k : Z) :
  (__contains__ self k = Ok true /\ exists v, __getitem__ self k = Ok v) \/
  (__contains__ self k = Ok false /\ __getitem__ self k = Raise (KeyError k)).
Proof.
  unfold __contains__.
  destruct (getitem_cases self k) as [[v Hv]|Hr].
  - left. rewrite Hv. eauto.
  - right. rewrite Hr. auto.
Qed.

Lemma getitem_backers_cases bs k :
  (exists v, getitem_backers bs k = Ok v) \/
  getitem_backers bs k = Raise (KeyError k).
Proof.
  induction bs as [|[start [data|sub]] bs IH]; simpl; [auto| |].
  - destruct (_ && _) eqn:E; [|exact IH].
    apply andb_true_iff in E as [E1 E2].
    destruct (str_index_in_range data (k - start)) as (c & _ & ->); [lia|eauto].
  - destruct (getitem_cases sub (k - start)) as [[v ->]| ->]; [eauto|exact IH].
Qed.

Lemma getitem_backers_cons_skip b bs k :
  resolves k b = false -> getitem_backers (b :: bs) k = getitem_backers bs k.
Proof.
  destruct b as [start [data|sub]]; unfold resolves; simpl; intros H.
  - rewrite H. reflexivity.
  - destruct (getitem_cases sub (k - start)) as [[v Hv]| ->]; [|reflexivity].
    rewrite Hv in H. discriminate.
Qed.

Lemma getitem_backers_cons_hit start d bs k :
  resolves k (start, d) = true ->
  getitem_backers ((start, d) :: bs) k =
  match d with
  | DStr data => str_index data (k - start)
  | DClemory sub => __getitem__ sub (k - start)
  end.
Proof.
  destruct d as [data|sub]; unfold resolves; simpl; intros H.
  - rewrite H. reflexivity.
  - destruct (__getitem__ sub (k - start)) as [v|e]; [reflexivity|discriminate].
Qed.

Lemma getitem_backers_app_skip l1 l2 k :
  existsb (resolves k) l1 = false ->
  getitem_backers (l1 ++ l2) k = getitem_backers l2 k.
Proof.
  induction l1 as [|b l1 IH]; [reflexivity|].
  simpl existsb. intros H. apply orb_false_iff in H as [Hb Hl].
  change ((b :: l1) ++ l2) with (b :: (l1 ++ l2)).
  rewrite getitem_backers_cons_skip by exact Hb. auto.
Qed.

(** X2: with no update at [k], the first backer in list order that
    resolves [k] decides the read: a string gives its character at
    [k - start], a nested space gives what it reads at [k - start];
    backers before it that do not resolve [k], nested spaces that miss
    included, are passed over. *)
Theorem getitem_first_resolving_backer
    (self : Clemory) (k : Z) (i : nat) (start : Z) (d : backer_data) :
  _updates self !! k = None ->
  _backers self !! i = Some (start, d) ->
  existsb (resolves k) (take i (_backers self)) = false ->
  resolves k (start, d) = true ->
  __getitem__ self k =
  match d with
  | DStr data => str_index data (k - start)
  | DClemory sub => __getitem__ sub (k - start)
  end.
Proof.
  intros Hu Hi Hbefore Hres. rewrite getitem_unfold, Hu.
  rewrite <- (take_drop_middle _ _ _ Hi).
  rewrite getitem_backers_app_skip by exact Hbefore.
  apply getitem_backers_cons_hit, Hres.
Qed.

Lemma getitem_first_resolving_backer_witness :
  __getitem__ demo_nested 20482 = __getitem__ demo_flat (20482 - 16384).
Proof.
  apply (getitem_first_resolving_backer demo_nested 20482 0 16384
           (DClemory demo_flat)); reflexivity.
Defined.

(** ** Adding a backer *)

Lemma list_insert_at_Permutation {A} (a : list A) i x :
  list_insert_at a i x ≡ₚ x :: a.
Proof.
  unfold list_insert_at. rewrite <- Permutation_middle.
  rewrite take_drop. reflexivity.
Qed.

Lemma getitem_backers_middle_skip l1 b l2 k :
  resolves k b = false ->
  getitem_backers (l1 ++ b :: l2) k = getitem_backers (l1 ++ l2) k.
Proof.
  intros Hb. induction l1 as [|[start [data|sub]] l1 IH]; simpl.
  - apply getitem_backers_cons_skip, Hb.
  - rewrite IH. reflexivity.
  - rewrite IH. reflexivity.
Qed.

Lemma getitem_backers_insert_skip bs i b k :
  resolves k b = false ->
  getitem_backers (list_insert_at bs i b) k = getitem_backers bs k.
Proof.
  intros Hb. unfold list_insert_at.
  rewrite getitem_backers_middle_skip by exact Hb.
  rewrite take_drop. reflexivity.
Qed.

Lemma getitem_backers_insert_hit bs i start d k :
  existsb (resolves k) bs = false ->
  resolves k (start, d) = true ->
  getitem_backers (list_insert_at bs i (start, d)) k =
  match d with
  | DStr data => str_index data (k - start)
  | DClemory sub => __getitem__ sub (k - start)
  end.
Proof.
  intros Hbs Hres. unfold list_insert_at.
  rewrite getitem_backers_app_skip.
  - apply getitem_backers_cons_hit, Hres.
  - rewrite <- (take_drop i bs), existsb_app in Hbs.
    apply orb_false_iff in Hbs as [H _]. exact H.
Qed.

Section Add_backer_properties.
Variable data_lt : backer_data -> backer_data -> bool.

(** X3: [add_backer] probes the single address [start]: when [start] is
    already resolvable it raises [ValueError] and hands back the state it
    was given; otherwise it succeeds, the backers are the old ones with
    [(start, data)] added once and none lost, the flag is set and the
    updates, the cursor and the C buffers are untouched. *)
Theorem add_backer_outcome (start : Z) (data : backer_data) (self : Clemory) :
  if is_ok (__getitem__ self start)
  then add_backer data_lt start data self = (Raise ValueError, self)
  else exists self',
      add_backer data_lt start data self = (Ok tt, self') /\
      _backers self' ≡ₚ (start, data) :: _backers self /\
      _updates self' = _updates self /\
      _pointer self' = _pointer self /\
      _cbackers self' = _cbackers self /\
      _flattening_needed self' = true.
Proof.
  unfold add_backer. rewrite contains_spec.
  destruct (is_ok (__getitem__ self start)); [reflexivity|].
  eexists; split; [reflexivity|].
  destruct self as [bs us p cs f]; simpl. repeat split.
  apply list_insert_at_Permutation.
Qed.

(** X4: a successful or failed [add_backer] changes no read at an address
    the new backer does not resolve; in particular adding an empty string
    changes no read at all. *)
Theorem add_backer_frame (start : Z) (data : backer_data) (self : Clemory) (k : Z) :
  resolves k (start, data) = false ->
  __getitem__ (snd (add_backer data_lt start data self)) k = __getitem__ self k.
Proof.
  intros Hres. unfold add_backer. rewrite contains_spec.
  destruct (is_ok (__getitem__ self start)); [reflexivity|].
  rewrite !getitem_unfold. destruct self as [bs us p cs f]; simpl.
  destruct (us !! k); [reflexivity|].
  apply getitem_backers_insert_skip, Hres.
Qed.

(** X5: when [add_backer] succeeds, every address the new backer resolves
    that was not resolvable before reads from the new backer: the
    character at [k - start] of a string, or what a nested space reads at
    [k - start]. *)
Theorem add_backer_reads_new_backer
    (start : Z) (data : backer_data) (self : Clemory) (k : Z) :
  is_ok (__getitem__ self start) = false ->
  is_ok (__getitem__ self k) = false ->
  resolves k (start, data) = true ->
  __getitem__ (snd (add_backer data_lt start data self)) k =
  match data with
  | DStr s => str_index s (k - start)
  | DClemory sub => __getitem__ sub (k - start)
  end.
Proof.
  intros Hstart Hk Hres. unfold add_backer. rewrite contains_spec, Hstart.
  rewrite getitem_ok_iff in Hk. rewrite getitem_unfold.
  destruct self as [bs us p cs f]; simpl in *.
  destruct (us !! k); [discriminate|].
  apply getitem_backers_insert_hit; assumption.
Qed.
End Add_backer_properties.

Lemma add_backer_frame_witness :
  add_backer data_lt_unused 4094 (DStr ["a"%byte; "b"%byte; "c"%byte]) demo_flat
  = (Ok tt,
     mkClemory [(4094, DStr ["a"%byte; "b"%byte; "c"%byte]);
                (4096, DStr ["016"%byte; "032"%byte; "048"%byte; "064"%byte])]
               ∅ 0 [] true) /\
  __getitem__ (snd (add_backer data_lt_unused 4094
                      (DStr ["a"%byte; "b"%byte; "c"%byte]) demo_flat)) 4097
  = __getitem__ demo_flat 4097.
Proof.
  split; [reflexivity|].
  apply (add_backer_frame data_lt_unused 4094
           (DStr ["a"%byte; "b"%byte; "c"%byte]) demo_flat 4097).
  reflexivity.
Defined.

Lemma add_backer_empty_string_witness :
  fst (add_backer data_lt_unused 8192 (DStr []) demo_flat) = Ok tt /\
  (_backers (snd (add_backer data_lt_unused 8192 (DStr []) demo_flat))).*1
  = [4096; 8192] /\
  __getitem__ (snd (add_backer data_lt_unused 8192 (DStr []) demo_flat)) 8192
  = Raise (KeyError 8192).
Proof. vm_compute. repeat split. Qed.

Lemma add_backer_reads_new_backer_witness :
  __getitem__ (snd (add_backer data_lt_unused 8192 (DStr ["A"%byte; "B"%byte])
                      demo_flat)) 8193
  = str_index ["A"%byte; "B"%byte] (8193 - 8192).
Proof.
  apply (add_backer_reads_new_backer data_lt_unused 8192
           (DStr ["A"%byte; "B"%byte]) demo_flat 8193); reflexivity.
Defined.

(** The probe is of [start] alone: a backer added below an existing one
    may reach into it, and then takes over the addresses they share. *)
Example add_backer_overlap :
  let self := snd (add_backer data_lt_unused 4094
                     (DStr ["a"%byte; "b"%byte; "c"%byte]) demo_flat) in
  __getitem__ demo_flat 4096 = Ok (chr_of "016"%byte) /\
  __getitem__ self 4096 = Ok (chr_of "c"%byte) /\
  (_backers self).*1 = [4094; 4096].
Proof. vm_compute. repeat split. Qed.

(** ** Ranges *)

Lemma read_bytes_loop_returns self cnt : forall i out,
  read_bytes_loop self i cnt = Ok out <->
  length out = cnt /\
  forall (j : nat) v, out !! j = Some v ->
                      __getitem__ self (i + Z.of_nat j) = Ok v.
Proof.
  induction cnt as [|cnt IH]; intros i out; simpl.
  - split.
    + intros [= <-]. split; [reflexivity|]. intros j v H. discriminate.
    + intros [Hl _]. destruct out; [reflexivity|discriminate].
  - split.
    + destruct (__getitem__ self i) as [v|e] eqn:Ev; simpl; [|discriminate].
      destruct (read_bytes_loop self (i + 1) cnt) as [b|e] eqn:Eb; simpl;
        [|discriminate].
      intros [= <-]. apply IH in Eb as [Hl Hb]. split; [simpl; lia|].
      intros [|j] w Hw; simpl in Hw.
      * injection Hw as <-. rewrite Z.add_0_r. exact Ev.
      * replace (i + Z.of_nat (S j)) with (i + 1 + Z.of_nat j) by lia. auto.
    + intros [Hl Hout]. destruct out as [|v out]; [discriminate|].
      pose proof (Hout 0%nat v eq_refl) as H0. simpl in H0.
      rewrite Z.add_0_r in H0. rewrite H0. simpl.
      assert (Eb : read_bytes_loop self (i + 1) cnt = Ok out).
      { apply IH. split; [simpl in Hl; lia|]. intros j w Hw.
        replace (i + 1 + Z.of_nat j) with (i + Z.of_nat (S j)) by lia.
        apply Hout. exact Hw. }
      rewrite Eb. reflexivity.
Qed.

(** X6: [read_bytes(addr, n)] returns [out] exactly when [out] has
    [max(n, 0)] elements and its [j]-th element is what [self[addr + j]]
    returns; so for [n <= 0] it returns the empty list, and it returns
    nothing shorter than asked. *)
Theorem read_bytes_returns (self : Clemory) (addr n : Z) (out : list value) :
  read_bytes self addr n = Ok out <->
  length out = Z.to_nat n /\
  forall (j : nat) v, out !! j = Some v ->
                      __getitem__ self (addr + Z.of_nat j) = Ok v.
Proof. unfold read_bytes. apply read_bytes_loop_returns. Qed.

Lemma setitem_getitem_other k v self k' :
  k <> k' ->
  __getitem__ (snd (__setitem__ k v self)) k' = __getitem__ self k'.
Proof.
  intros Hne. unfold __setitem__. rewrite contains_spec.
  destruct (is_ok (__getitem__ self k)); cbn [snd]; [|reflexivity].
  rewrite !getitem_unfold. destruct self as [bs us p cs f]; simpl.
  rewrite lookup_insert_ne by exact Hne. reflexivity.
Qed.

Lemma setitem_pointer k v self :
  _pointer (snd (__setitem__ k v self)) = _pointer self.
Proof.
  unfold __setitem__. rewrite contains_spec.
  destruct (is_ok _); simpl; [|reflexivity]. destruct self; reflexivity.
Qed.

Lemma setitem_updates_ok k v self :
  is_ok (__getitem__ self k) = true ->
  _updates (snd (__setitem__ k v self)) = <[k := v]> (_updates self).
Proof.
  intros H. rewrite (setitem_ok _ _ _ H). destruct self; reflexivity.
Qed.

(** What the loop of [write_bytes] leaves when every address of the range
    is resolvable. *)
Lemma write_bytes_loop_ok addr data : forall i self,
  (forall j : nat, (j < length data)%nat ->
                   is_ok (__getitem__ self (addr + i + Z.of_nat j)) = true) ->
  exists self',
    write_bytes_loop addr i data self = (Ok tt, self') /\
    _backers self' = _backers self /\
    _pointer self' = _pointer self /\
    forall k, _updates self' !! k =
              match written (addr + i) data k with
              | Some c => Some (chr_of c)
              | None => _updates self !! k
              end.
Proof.
  induction data as [|c data IH]; intros i self Hall.
  - exists self. repeat split. intros k. unfold written.
    destruct (addr + i <=? k); reflexivity.
  - assert (H0 : is_ok (__getitem__ self (addr + i)) = true).
    { rewrite <- (Z.add_0_r (addr + i)). apply (Hall 0%nat). simpl. lia. }
    simpl. rewrite (setitem_ok _ _ _ H0).
    set (self1 := set_flattening_needed true
                    (set_updates (<[addr + i := chr_of c]> (_updates self)) self)).
    assert (E1 : self1 = snd (__setitem__ (addr + i) (chr_of c) self))
      by (rewrite (setitem_ok _ _ _ H0); reflexivity).
    destruct (IH (i + 1) self1) as (self' & E & Hb & Hp & Hu).
    { intros j Hj. rewrite E1. apply setitem_resolves.
      replace (addr + (i + 1) + Z.of_nat j) with (addr + i + Z.of_nat (S j)) by lia.
      apply Hall. simpl. lia. }
    exists self'. split; [exact E|]. split; [|split].
    + rewrite Hb. destruct self; reflexivity.
    + rewrite Hp. destruct self; reflexivity.
    + intros k. rewrite Hu. unfold written.
      replace (_updates self1) with (<[addr + i := chr_of c]> (_updates self))
        by (destruct self; reflexivity).
      destruct (Z.leb_spec (addr + (i + 1)) k) as [Hle|Hgt].
      * destruct (Z.leb_spec (addr + i) k); [|lia].
        replace (Z.to_nat (k - (addr + i))) with (S (Z.to_nat (k - (addr + (i + 1)))))
          by lia.
        simpl. destruct (data !! _); [reflexivity|].
        rewrite lookup_insert_ne by lia. reflexivity.
      * destruct (decide (k = addr + i)) as [->|Hne].
        -- rewrite lookup_insert_eq.
           destruct (Z.leb_spec (addr + i) (addr + i)); [|lia].
           replace (addr + i - (addr + i)) with 0 by lia. reflexivity.
        -- rewrite lookup_insert_ne by congruence.
           destruct (Z.leb_spec (addr + i) k); [lia|reflexivity].
Qed.

Lemma written_lookup addr data (j : nat) :
  written addr data (addr + Z.of_nat j) = data !! j.
Proof.
  unfold written. destruct (Z.leb_spec addr (addr + Z.of_nat j)); [|lia].
  replace (Z.to_nat (addr + Z.of_nat j - addr)) with j by lia. reflexivity.
Qed.

(** Updates that hold the characters of [data] from [addr] on are read
    back by [read_bytes]. *)
Lemma read_bytes_of_updates self addr data :
  (forall (j : nat) c, data !! j = Some c ->
                       _updates self !! (addr + Z.of_nat j) = Some (chr_of c)) ->
  read_bytes self addr (Z.of_nat (length data)) = Ok (chr_of <$> data).
Proof.
  intros Hu. unfold read_bytes. apply read_bytes_loop_returns.
  rewrite length_fmap, Nat2Z.id. split; [reflexivity|].
  intros j v Hj. rewrite list_lookup_fmap in Hj.
  destruct (data !! j) as [c|] eqn:Ec; [|discriminate]. injection Hj as <-.
  rewrite getitem_unfold, (Hu j c Ec). reflexivity.
Qed.

(** X7: when every address of [[addr, addr + len(data))] is resolvable,
    [write_bytes(addr, data)] succeeds, [read_bytes(addr, len(data))] then
    returns the characters of [data], a read outside the range gives what
    it gave before, and the backers and the cursor are untouched. *)
Theorem write_bytes_then_read_bytes (addr : Z) (data : list byte) (self : Clemory) :
  (forall j : nat, (j < length data)%nat ->
                   is_ok (__getitem__ self (addr + Z.of_nat j)) = true) ->
  exists self',
    write_bytes addr data self = (Ok tt, self') /\
    read_bytes self' addr (Z.of_nat (length data)) = Ok (chr_of <$> data) /\
    (forall k, ~ (addr <= k < addr + Z.of_nat (length data)) ->
               __getitem__ self' k = __getitem__ self k) /\
    _backers self' = _backers self /\
    _pointer self' = _pointer self.
Proof.
  intros Hall. unfold write_bytes.
  destruct (write_bytes_loop_ok addr data 0 self) as (self' & E & Hb & Hp & Hu).
  { intros j Hj. rewrite Z.add_0_r. auto. }
  rewrite Z.add_0_r in Hu.
  exists self'. split; [exact E|]. split; [|split; [|auto]].
  - apply read_bytes_of_updates. intros j c Hj.
    rewrite Hu, written_lookup, Hj. reflexivity.
  - intros k Hk. rewrite !getitem_unfold, Hu, Hb. unfold written.
    destruct (Z.leb_spec addr k); [|reflexivity].
    rewrite lookup_ge_None_2 by lia. reflexivity.
Qed.

Lemma write_bytes_then_read_bytes_witness :
  exists self',
    write_bytes 4097 ["a"%byte; "b"%byte] demo_flat = (Ok tt, self') /\
    read_bytes self' 4097 (Z.of_nat (length ["a"%byte; "b"%byte]))
    = Ok (chr_of <$> ["a"%byte; "b"%byte]) /\
    (forall k, ~ (4097 <= k < 4097 + Z.of_nat (length ["a"%byte; "b"%byte])) ->
               __getitem__ self' k = __getitem__ demo_flat k) /\
    _backers self' = _backers demo_flat /\
    _pointer self' = _pointer demo_flat.
Proof.
  apply (write_bytes_then_read_bytes 4097 ["a"%byte; "b"%byte] demo_flat).
  intros [|[|j]] Hj; [reflexivity|reflexivity|simpl in Hj; lia].
Defined.

Lemma setitem_fail k v self :
  is_ok (__getitem__ self k) = false ->
  __setitem__ k v self = (Raise (IndexError k), self).
Proof. intros H. unfold __setitem__. rewrite contains_spec, H. reflexivity. Qed.

Lemma write_bytes_loop_partial addr data : forall i self (j : nat),
  (j < length data)%nat ->
  (forall l : nat, (l < j)%nat ->
                   is_ok (__getitem__ self (addr + i + Z.of_nat l)) = true) ->
  is_ok (__getitem__ self (addr + i + Z.of_nat j)) = false ->
  write_bytes_loop addr i data self =
    (Raise (IndexError (addr + i + Z.of_nat j)),
     snd (write_bytes_loop addr i (take j data) self)) /\
  fst (write_bytes_loop addr i (take j data) self) = Ok tt.
Proof.
  induction data as [|c data IH]; intros i self j Hj Hbefore Hfail;
    [simpl in Hj; lia|].
  destruct j as [|j].
  - simpl in *. rewrite Z.add_0_r in *. rewrite (setitem_fail _ _ _ Hfail). auto.
  - assert (H0 : is_ok (__getitem__ self (addr + i)) = true).
    { rewrite <- (Z.add_0_r (addr + i)). apply (Hbefore 0%nat). lia. }
    cbn [take write_bytes_loop]. rewrite (setitem_ok _ _ _ H0).
    set (self1 := set_flattening_needed true
                    (set_updates (<[addr + i := chr_of c]> (_updates self)) self)).
    assert (E1 : self1 = snd (__setitem__ (addr + i) (chr_of c) self))
      by (rewrite (setitem_ok _ _ _ H0); reflexivity).
    replace (addr + i + Z.of_nat (S j)) with (addr + (i + 1) + Z.of_nat j) in * by lia.
    apply IH.
    + simpl in Hj. lia.
    + intros l Hl. rewrite E1. apply setitem_resolves.
      replace (addr + (i + 1) + Z.of_nat l) with (addr + i + Z.of_nat (S l)) by lia.
      apply Hbefore. lia.
    + rewrite E1, setitem_getitem_other by lia. exact Hfail.
Qed.

(** X8: [write_bytes] is not atomic.  When the address at offset [j] is
    the first of the range that is not resolvable, it raises
    [IndexError(addr + j)] and leaves the state a successful
    [write_bytes] of the first [j] characters leaves: those stay
    written. *)
Theorem write_bytes_stops_at_first_unbacked
    (addr : Z) (data : list byte) (self : Clemory) (j : nat) :
  (j < length data)%nat ->
  (forall l : nat, (l < j)%nat ->
                   is_ok (__getitem__ self (addr + Z.of_nat l)) = true) ->
  is_ok (__getitem__ self (addr + Z.of_nat j)) = false ->
  write_bytes addr data self =
    (Raise (IndexError (addr + Z.of_nat j)),
     snd (write_bytes addr (take j data) self)) /\
  fst (write_bytes addr (take j data) self) = Ok tt.
Proof.
  intros Hj Hbefore Hfail. unfold write_bytes.
  destruct (write_bytes_loop_partial addr data 0 self j) as [E1 E2].
  - exact Hj.
  - intros l Hl. rewrite Z.add_0_r. auto.
  - rewrite Z.add_0_r. exact Hfail.
  - rewrite Z.add_0_r in E1. auto.
Qed.

Lemma write_bytes_stops_at_first_unbacked_witness :
  write_bytes 4098 ["a"%byte; "b"%byte; "c"%byte] demo_flat =
    (Raise (IndexError (4098 + Z.of_nat 2)),
     snd (write_bytes 4098 (take 2 ["a"%byte; "b"%byte; "c"%byte]) demo_flat)) /\
  fst (write_bytes 4098 (take 2 ["a"%byte; "b"%byte; "c"%byte]) demo_flat) = Ok tt.
Proof.
  apply (write_bytes_stops_at_first_unbacked 4098
           ["a"%byte; "b"%byte; "c"%byte] demo_flat 2).
  - simpl. lia.
  - intros [|[|l]] Hl; [reflexivity|reflexivity|lia].
  - reflexivity.
Defined.

Example write_bytes_partial_state :
  __getitem__ (snd (write_bytes 4098 ["a"%byte; "b"%byte; "c"%byte] demo_flat)) 4099
  = Ok (chr_of "b"%byte).
Proof. vm_compute. reflexivity. Qed.

(** ** The stream interface *)

Lemma getitem_set_pointer q self k :
  __getitem__ (set_pointer q self) k = __getitem__ self k.
Proof. rewrite !getitem_unfold. destruct self; reflexivity. Qed.

Lemma read_bytes_loop_set_pointer q self cnt : forall i,
  read_bytes_loop (set_pointer q self) i cnt = read_bytes_loop self i cnt.
Proof.
  induction cnt as [|cnt IH]; intros i; cbn [read_bytes_loop]; [reflexivity|].
  rewrite getitem_set_pointer, IH. reflexivity.
Qed.

Lemma read_bytes_loop_app self c1 c2 : forall i,
  read_bytes_loop self i (c1 + c2) =
  out1 ← read_bytes_loop self i c1;
  out2 ← read_bytes_loop self (i + Z.of_nat c1) c2;
  Ok (out1 ++ out2).
Proof.
  induction c1 as [|c1 IH]; intros i.
  - simpl. rewrite Z.add_0_r. destruct (read_bytes_loop self i c2); reflexivity.
  - cbn [Nat.add read_bytes_loop]. rewrite IH.
    replace (i + 1 + Z.of_nat c1) with (i + Z.of_nat (S c1)) by lia.
    destruct (__getitem__ self i); simpl; [|reflexivity].
    destruct (read_bytes_loop self (i + 1) c1); simpl; [|reflexivity].
    destruct (read_bytes_loop self _ c2); reflexivity.
Qed.

Lemma join_app out1 out2 s1 s2 :
  join out1 = Ok s1 -> join out2 = Ok s2 -> join (out1 ++ out2) = Ok (s1 ++ s2).
Proof.
  revert s1. induction out1 as [|[s|start d] out1 IH]; intros s1; simpl.
  - intros [= <-] H. exact H.
  - destruct (join out1) as [r|e] eqn:E; simpl; [|discriminate].
    intros [= <-] H2. rewrite (IH r eq_refl H2). simpl.
    rewrite app_assoc. reflexivity.
  - discriminate.
Qed.

(** [read(n)] returns the string [s] exactly when [read_bytes] at the
    cursor returns values whose [join] is [s]; the fast path for [n = 1]
    agrees with the general one. *)
Lemma read_returns_string n self s self' :
  read n self = (Ok (PStr s), self') <->
  exists out,
    read_bytes self (_pointer self) n = Ok out /\ join out = Ok s /\
    self' = set_pointer (_pointer self + n) self.
Proof.
  unfold read. destruct (Z.eqb_spec n 1) as [->|Hn]; cbv zeta.
  - replace (_pointer (set_pointer (_pointer self + 1) self) - 1)
      with (_pointer self) by (destruct self; simpl; lia).
    rewrite getitem_set_pointer. unfold read_bytes. simpl.
    destruct (__getitem__ self (_pointer self)) as [[s0|st d]|e]; simpl.
    + split.
      * intros [= -> <-]. exists [PStr s]. simpl. rewrite app_nil_r. auto.
      * intros (out & [= <-] & Hj & ->). simpl in Hj. rewrite app_nil_r in Hj.
        injection Hj as ->. reflexivity.
    + split; [discriminate|]. intros (out & [= <-] & H & _). discriminate.
    + split; [discriminate|]. intros (out & H & _). discriminate.
  - destruct (read_bytes self (_pointer self) n) as [out|e]; simpl.
    + destruct (join out) as [r|e] eqn:E; simpl.
      * split.
        -- intros [= -> <-]. eauto.
        -- intros (out' & [= <-] & Hj & ->). congruence.
      * split; [discriminate|]. intros (out' & [= <-] & Hj & _). congruence.
    + split; [discriminate|]. intros (out' & H & _). discriminate.
Qed.

(** X9: the stream reads compose: when [read(n1)] returns [s1] and the
    [read(n2)] after it returns [s2], for [n1, n2 >= 0], a single
    [read(n1 + n2)] from the first state returns [s1 + s2] and leaves the
    same state, whether or not one of the three takes the fast path for a
    single byte. *)
Theorem read_then_read (n1 n2 : Z) (self self1 self2 : Clemory) (s1 s2 : list byte) :
  0 <= n1 -> 0 <= n2 ->
  read n1 self = (Ok (PStr s1), self1) ->
  read n2 self1 = (Ok (PStr s2), self2) ->
  read (n1 + n2) self = (Ok (PStr (s1 ++ s2)), self2).
Proof.
  intros H1 H2 E1 E2.
  apply read_returns_string in E1 as (out1 & R1 & J1 & ->).
  apply read_returns_string in E2 as (out2 & R2 & J2 & ->).
  apply read_returns_string. exists (out1 ++ out2).
  unfold read_bytes in *. rewrite read_bytes_loop_set_pointer in R2.
  replace (_pointer (set_pointer (_pointer self + n1) self))
    with (_pointer self + n1) in * by (destruct self; reflexivity).
  split; [|split].
  - rewrite Z2Nat.inj_add by lia. rewrite read_bytes_loop_app, R1. simpl.
    rewrite Z2Nat.id by lia. rewrite R2. reflexivity.
  - apply join_app; assumption.
  - destruct self; unfold set_pointer; simpl. f_equal. lia.
Qed.

Lemma read_then_read_witness :
  read (1 + 2) demo_seeked =
  (Ok (PStr (["016"%byte] ++ ["032"%byte; "048"%byte])),
   set_pointer 4099 demo_flat).
Proof.
  apply (read_then_read 1 2 demo_seeked (set_pointer 4097 demo_flat)
           (set_pointer 4099 demo_flat) ["016"%byte] ["032"%byte; "048"%byte]);
    [lia|lia|reflexivity|reflexivity].
Defined.

(** X22: [seek] validates nothing and moves only the cursor, and a
    [read(n)] after [seek(v)] returns the joined values of
    [read_bytes(v, n)] and leaves the cursor at [v + n]; for [n = 1] the
    fast path gives the same. *)
Theorem seek_then_read (v n : Z) (self : Clemory) (out : list value) (s : list byte) :
  read_bytes self v n = Ok out ->
  join out = Ok s ->
  seek v self = (Ok tt, set_pointer v self) /\
  read n (snd (seek v self)) = (Ok (PStr s), set_pointer (v + n) self).
Proof.
  intros Hr Hj. split; [reflexivity|].
  apply read_returns_string. exists out. cbn [seek snd].
  replace (_pointer (set_pointer v self)) with v by (destruct self; reflexivity).
  unfold read_bytes in *. rewrite read_bytes_loop_set_pointer.
  split; [exact Hr|]. split; [exact Hj|]. destruct self; reflexivity.
Qed.

Lemma seek_then_read_witness :
  seek 4097 demo_flat = (Ok tt, set_pointer 4097 demo_flat) /\
  read 2 (snd (seek 4097 demo_flat)) =
  (Ok (PStr ["032"%byte; "048"%byte]), set_pointer (4097 + 2) demo_flat).
Proof.
  apply (seek_then_read 4097 2 demo_flat
           [chr_of "032"%byte; chr_of "048"%byte] ["032"%byte; "048"%byte]);
    reflexivity.
Defined.

(** ** The life of the flattened view *)

Lemma stride_repr_set_flattening_needed f self :
  _stride_repr (set_flattening_needed f self) = _stride_repr self.
Proof. rewrite !stride_repr_unfold. destruct self; reflexivity. Qed.

Lemma flatten_to_c_ok self out :
  _stride_repr self = Ok out ->
  _flatten_to_c self = (Ok tt, set_cbackers out (set_flattening_needed false self)).
Proof.
  intros E. unfold _flatten_to_c.
  rewrite stride_repr_set_flattening_needed, E. reflexivity.
Qed.

Lemma flatten_to_c_raise self e :
  _stride_repr self = Raise e ->
  _flatten_to_c self = (Raise e, set_flattening_needed false self).
Proof.
  intros E. unfold _flatten_to_c.
  rewrite stride_repr_set_flattening_needed, E. reflexivity.
Qed.

(** What a call of [read_bytes_c] that gets as far as the scan has done to
    the state. *)
Lemma read_bytes_c_scans addr self r self' :
  read_bytes_c addr self = (r, self') ->
  (exists e, r = Raise e /\ _flattening_needed self = true /\
             _stride_repr self = Raise e /\
             self' = set_flattening_needed false self) \/
  (r = cbackers_scan (_cbackers self') addr /\
   _flattening_needed self' = false /\
   _backers self' = _backers self /\ _updates self' = _updates self /\
   _pointer self' = _pointer self /\
   (if _flattening_needed self then _stride_repr self = Ok (_cbackers self')
    else self' = self)).
Proof.
  unfold read_bytes_c. destruct (_flattening_needed self) eqn:Ef.
  - destruct (_stride_repr self) as [out|e] eqn:Es.
    + rewrite (flatten_to_c_ok _ _ Es). intros [= <- <-]. right.
      destruct self; simpl in *. auto 10.
    + rewrite (flatten_to_c_raise _ _ Es). intros [= <- <-]. left. eauto.
  - intros [= <- <-]. right. rewrite Ef. auto 10.
Qed.

(** X10: the pointer [read_bytes_c] returns stands inside one of the
    buffers of the view, the one that starts at [addr - offset]: its
    offset is at least [0] and less than the length of that buffer, so it
    can be dereferenced. *)
Theorem read_bytes_c_pointer_in_buffer
    (addr : Z) (self self' : Clemory) (p : cdata) (n : Z) :
  read_bytes_c addr self = (Ok (p, n), self') ->
  In (addr - c_offset p, c_array p) (_cbackers self') /\
  0 <= c_offset p < Z.of_nat (length (c_array p)) /\
  is_Some (cdata_index p 0).
Proof.
  intros E. apply read_bytes_c_scans in E as [(e & He & _)|(Hr & _)];
    [discriminate|].
  symmetry in Hr. apply cbackers_scan_returns in Hr as (Hin & Hoff & _).
  split; [exact Hin|]. split; [exact Hoff|].
  unfold cdata_index. rewrite Z.add_0_r.
  destruct (Z.leb_spec 0 (c_offset p)); [|lia].
  apply lookup_lt_is_Some_2. lia.
Qed.

Lemma read_bytes_c_pointer_in_buffer_witness :
  In (4097 - 1, ["016"%byte; "032"%byte; "048"%byte; "064"%byte])
     (_cbackers (snd (read_bytes_c 4097 demo_flat))) /\
  0 <= 1 < Z.of_nat (length ["016"%byte; "032"%byte; "048"%byte; "064"%byte]) /\
  is_Some (cdata_index
             (mkCdata ["016"%byte; "032"%byte; "048"%byte; "064"%byte] 1) 0).
Proof.
  apply (read_bytes_c_pointer_in_buffer 4097 demo_flat
           (snd (read_bytes_c 4097 demo_flat))
           (mkCdata ["016"%byte; "032"%byte; "048"%byte; "064"%byte] 1) (-4092)).
  reflexivity.
Defined.

(** X11: the view is built once.  After a [read_bytes_c] that returned,
    the flag is clear and the buffers are the strides [_stride_repr] gave
    (or the ones already there when the flag was clear); a further
    [read_bytes_c], at any address, scans those buffers and hands back the
    state unchanged. *)
Theorem read_bytes_c_builds_once
    (addr addr' : Z) (self self1 : Clemory) (r : cdata * Z) :
  read_bytes_c addr self = (Ok r, self1) ->
  _flattening_needed self1 = false /\
  (if _flattening_needed self then _stride_repr self = Ok (_cbackers self1)
   else _cbackers self1 = _cbackers self) /\
  read_bytes_c addr' self1 = (cbackers_scan (_cbackers self1) addr', self1).
Proof.
  intros E. apply read_bytes_c_scans in E as [(e & He & _)|(_ & Hf & _ & _ & _ & Hc)];
    [discriminate|].
  split; [exact Hf|]. split.
  - destruct (_flattening_needed self); [exact Hc|]. rewrite Hc. reflexivity.
  - unfold read_bytes_c. rewrite Hf. reflexivity.
Qed.

Lemma read_bytes_c_builds_once_witness :
  _flattening_needed (snd (read_bytes_c 4097 demo_flat)) = false /\
  (if _flattening_needed demo_flat
   then _stride_repr demo_flat = Ok (_cbackers (snd (read_bytes_c 4097 demo_flat)))
   else _cbackers (snd (read_bytes_c 4097 demo_flat)) = _cbackers demo_flat) /\
  read_bytes_c 4099 (snd (read_bytes_c 4097 demo_flat)) =
  (cbackers_scan (_cbackers (snd (read_bytes_c 4097 demo_flat))) 4099,
   snd (read_bytes_c 4097 demo_flat)).
Proof.
  apply (read_bytes_c_builds_once 4097 4099 demo_flat
           (snd (read_bytes_c 4097 demo_flat))
           (mkCdata ["016"%byte; "032"%byte; "048"%byte; "064"%byte] 1, -4092)).
  reflexivity.
Defined.

(** X12: [_flatten_to_c] clears the flag before it computes the strides.
    When [_stride_repr] raises, [read_bytes_c] passes the exception on
    with the flag already clear and the old buffers in place, and the next
    [read_bytes_c] does not rebuild: it scans the old buffers. *)
Theorem read_bytes_c_after_failed_rebuild
    (addr addr' : Z) (self : Clemory) (e : pyerr) :
  _flattening_needed self = true ->
  _stride_repr self = Raise e ->
  read_bytes_c addr self = (Raise e, set_flattening_needed false self) /\
  read_bytes_c addr' (set_flattening_needed false self) =
  (cbackers_scan (_cbackers self) addr', set_flattening_needed false self).
Proof.
  intros Hf Es. unfold read_bytes_c. rewrite Hf, (flatten_to_c_raise _ _ Es).
  split; [reflexivity|]. destruct self; reflexivity.
Qed.

Lemma read_bytes_c_after_failed_rebuild_witness :
  read_bytes_c 4096 demo_updated =
    (Raise ValueError, set_flattening_needed false demo_updated) /\
  read_bytes_c 4096 (set_flattening_needed false demo_updated) =
    (cbackers_scan (_cbackers demo_updated) 4096,
     set_flattening_needed false demo_updated).
Proof.
  apply (read_bytes_c_after_failed_rebuild 4096 4096 demo_updated ValueError);
    reflexivity.
Defined.

Lemma well_backed_same_contents self1 self2 :
  _backers self2 = _backers self1 -> _updates self2 = _updates self1 ->
  well_backed self1 -> well_backed self2.
Proof.
  intros Hb Hu. rewrite !well_backed_unfold. unfold updates_backed.
  rewrite Hb, Hu. auto.
Qed.

Lemma getitem_same_contents self1 self2 k :
  _backers self2 = _backers self1 -> _updates self2 = _updates self1 ->
  __getitem__ self2 k = __getitem__ self1 k.
Proof. intros Hb Hu. rewrite !getitem_unfold, Hb, Hu. reflexivity. Qed.

(** X13: a write after the view was built is seen by the next bounded
    access.  In a state reached by [add_backer] and byte writes, after any
    [read_bytes_c], writing the byte [c] at a resolvable address [k] marks
    the view stale, and [read_bytes_c(k)] then rebuilds it and returns a
    pointer at which [c] stands. *)
Theorem write_after_read_bytes_c_is_seen
    (self self1 : Clemory) (a k : Z) (c : byte) (r : result (cdata * Z)) :
  reachable self ->
  read_bytes_c a self = (r, self1) ->
  is_ok (__getitem__ self k) = true ->
  exists p n self2,
    read_bytes_c k (snd (__setitem__ k (chr_of c) self1)) = (Ok (p, n), self2) /\
    cdata_index p 0 = Some c.
Proof.
  intros Hr E Hk. pose proof (reachable_well_backed _ Hr) as Hw.
  destruct (stride_repr_agrees self Hw) as (out0 & Es0 & _).
  apply read_bytes_c_scans in E as [(e & _ & _ & Hs & _)|(_ & _ & Hb & Hu & _ & _)];
    [congruence|].
  assert (Hw1 : well_backed self1) by (apply (well_backed_same_contents self); auto).
  assert (Hk1 : is_ok (__getitem__ self1 k) = true)
    by (rewrite (getitem_same_contents self); auto).
  pose proof (setitem_well_backed k c self1 Hw1) as Hw2.
  pose proof (setitem_ok self1 k (chr_of c) Hk1) as Eset.
  set (self2 := snd (__setitem__ k (chr_of c) self1)) in *.
  assert (Hf2 : _flattening_needed self2 = true).
  { unfold self2. rewrite Eset. destruct self1; reflexivity. }
  assert (Hg2 : __getitem__ self2 k = Ok (chr_of c)).
  { unfold self2. rewrite Eset, getitem_unfold. destruct self1; cbn.
    rewrite lookup_insert_eq. reflexivity. }
  destruct (flatten_then_scan self2 k Hw2) as (out & Efl & _ & Hag).
  rewrite Hg2 in Hag. destruct Hag as (c' & Hc' & Hread).
  assert (c' = c) by (unfold chr_of in Hc'; congruence). subst c'.
  pose proof (cbackers_scan_spec out k) as Hscan. rewrite Hread in Hscan.
  destruct Hscan as (p & n & Ep & Hp).
  exists p, n, (set_cbackers out (set_flattening_needed false self2)).
  split; [|exact Hp].
  unfold read_bytes_c. rewrite Hf2, Efl.
  replace (_cbackers (set_cbackers out (set_flattening_needed false self2)))
    with out by (destruct self2; reflexivity).
  rewrite Ep. reflexivity.
Qed.

Lemma write_after_read_bytes_c_is_seen_witness :
  exists p n self2,
    read_bytes_c 4097
      (snd (__setitem__ 4097 (chr_of "z"%byte) (snd (read_bytes_c 4096 demo_written))))
    = (Ok (p, n), self2) /\
    cdata_index p 0 = Some "z"%byte.
Proof.
  apply (write_after_read_bytes_c_is_seen demo_written
           (snd (read_bytes_c 4096 demo_written)) 4096 4097 "z"%byte
           (fst (read_bytes_c 4096 demo_written))).
  - exact (evolves_setitem _ _ _ _
             (evolves_add_str _ _ data_lt_unused _ _ (evolves_refl init))).
  - reflexivity.
  - reflexivity.
Defined.

(** ** The strides *)

Lemma apply_update_layout key val : forall out out',
  apply_update key val out = Ok out' -> layout out' = layout out.
Proof.
  induction out as [|[start data] out IH]; intros out'; simpl; [discriminate|].
  destruct (_ && _).
  - destruct val as [[|c [|c' s]]|st d]; simpl; try discriminate.
    intros [= <-]. simpl. rewrite length_insert. reflexivity.
  - destruct (apply_update key val out) as [out''|e]; simpl; [|discriminate].
    intros [= <-]. simpl. rewrite (IH out'' eq_refl). reflexivity.
Qed.

Lemma apply_updates_layout us : forall out out',
  apply_updates us out = Ok out' -> layout out' = layout out.
Proof.
  induction us as [|[key val] us IH]; intros out out'; simpl.
  - intros [= <-]. reflexivity.
  - destruct (apply_update key val out) as [out1|e] eqn:E; simpl; [|discriminate].
    intros H. rewrite (IH _ _ H). apply (apply_update_layout _ _ _ _ E).
Qed.

Lemma stride_backers_flat bs :
  forallb is_str bs = true ->
  exists out, stride_backers bs = Ok out /\
              map (fun s : stride => (s.1, s.1 + Z.of_nat (length s.2))) out
              = map extent bs.
Proof.
  induction bs as [|[start [data|sub]] bs IH]; simpl.
  - intros _. exists []. auto.
  - intros H. destruct (IH H) as (out & -> & Hout).
    exists ((start, data) :: out). split; [reflexivity|].
    simpl. rewrite Hout. reflexivity.
  - discriminate.
Qed.

(** X14: for a space whose backers are all strings, [stride_repr], when it
    returns, gives one [(start, end, data)] triple per backer, in the
    order of the backers, running from the base of the backer to the base
    plus the length of its string; the updates change bytes of the data,
    never where a stride starts or ends. *)
Theorem stride_repr_extents (self : Clemory) (triples : list (Z * Z * list byte)) :
  forallb is_str (_backers self) = true ->
  stride_repr self = Ok triples ->
  map fst triples = map extent (_backers self).
Proof.
  intros Hflat. unfold stride_repr. rewrite stride_repr_unfold.
  destruct (stride_backers_flat _ Hflat) as (out0 & -> & Hout0). simpl.
  destruct (apply_updates _ out0) as [out|e] eqn:E; simpl; [|discriminate].
  intros [= <-]. apply apply_updates_layout in E.
  rewrite <- Hout0, map_map. simpl.
  transitivity (map (fun x : Z * nat => (x.1, x.1 + Z.of_nat x.2)) (layout out)).
  - unfold layout. rewrite map_map. reflexivity.
  - rewrite E. unfold layout. rewrite map_map. reflexivity.
Qed.

Lemma stride_repr_extents_witness :
  map fst [(4096, 4100, ["016"%byte; "032"%byte; "153"%byte; "064"%byte])]
  = map extent (_backers demo_written).
Proof.
  apply (stride_repr_extents demo_written
           [(4096, 4100, ["016"%byte; "032"%byte; "153"%byte; "064"%byte])]);
    reflexivity.
Defined.

(** X15: in every state reached from a fresh space by [add_backer] and
    byte writes, every update is a single character at an address that the
    backers alone resolve, and [_stride_repr] returns: the error for an
    update that lies on no backer is never raised there. *)
Theorem reachable_updates_lie_on_backers (self : Clemory) :
  reachable self ->
  (forall k v, _updates self !! k = Some v ->
               (exists c, v = chr_of c) /\
               is_ok (getitem_backers (_backers self) k) = true) /\
  is_ok (_stride_repr self) = true.
Proof.
  intros Hr. pose proof (reachable_well_backed _ Hr) as Hw. split.
  - apply well_backed_unfold in Hw as [_ Hu]. intros k v Hkv.
    destruct (Hu k v Hkv) as [Hv Hk]. split; [exact Hv|].
    rewrite getitem_backers_ok. exact Hk.
  - destruct (stride_repr_agrees self Hw) as (out & -> & _). reflexivity.
Qed.

Lemma reachable_updates_lie_on_backers_witness :
  (forall k v, _updates demo_written !! k = Some v ->
               (exists c, v = chr_of c) /\
               is_ok (getitem_backers (_backers demo_written) k) = true) /\
  is_ok (_stride_repr demo_written) = true.
Proof.
  apply (reachable_updates_lie_on_backers demo_written).
  exact (evolves_setitem _ _ _ _
           (evolves_add_str _ _ data_lt_unused _ _ (evolves_refl init))).
Defined.

(** ** What no method takes away *)

Lemma update_backer_loop_resolves bs i start data self k :
  is_ok (__getitem__ self k) = true ->
  is_ok (__getitem__ (update_backer_loop bs i start data self) k) = true.
Proof.
  revert i. induction bs as [|[oldstart d] bs IH]; intros i Hk; simpl; [exact Hk|].
  destruct (oldstart =? start); [|apply IH, Hk].
  rewrite getitem_ok_iff in *. destruct self as [bs0 us p cs f]; simpl in *.
  destruct (decide (i = k)) as [->|Hne].
  - rewrite lookup_insert_eq. reflexivity.
  - rewrite lookup_insert_ne by exact Hne. exact Hk.
Qed.

Lemma write_bytes_loop_resolves addr data k : forall i self,
  is_ok (__getitem__ self k) = true ->
  is_ok (__getitem__ (snd (write_bytes_loop addr i data self)) k) = true.
Proof.
  induction data as [|c data IH]; intros i self Hk; simpl; [exact Hk|].
  pose proof (setitem_resolves (addr + i) (chr_of c) self k Hk) as H1.
  destruct (__setitem__ (addr + i) (chr_of c) self) as [[[]|e] self1]; simpl in *.
  - apply IH, H1.
  - exact H1.
Qed.

Lemma read_updates n self : _updates (snd (read n self)) = _updates self.
Proof.
  unfold read. destruct (n =? 1); simpl; [destruct self; reflexivity|].
  destruct (read_bytes _ _ _); simpl; destruct self; reflexivity.
Qed.

Lemma flatten_to_c_updates self :
  _updates (snd (_flatten_to_c self)) = _updates self.
Proof.
  unfold _flatten_to_c. destruct (_stride_repr _); simpl; destruct self; reflexivity.
Qed.

Lemma read_bytes_c_updates addr self :
  _updates (snd (read_bytes_c addr self)) = _updates self.
Proof.
  unfold read_bytes_c. destruct (_flattening_needed self).
  - pose proof (flatten_to_c_updates self) as H.
    destruct (_flatten_to_c self) as [[[]|e] self']; simpl in *; exact H.
  - reflexivity.
Qed.

(** X16: apart from [__setstate__] on a snapshot, which replaces the
    backers and the updates, no method unmaps an address: whatever the
    call and whether it returns or raises, an address that was resolvable
    before it is resolvable after it. *)
Theorem call_keeps_resolvable
    (data_lt : backer_data -> backer_data -> bool)
    (op : method) (self : Clemory) (k : Z) :
  replaces_contents op = false ->
  is_ok (__getitem__ self k) = true ->
  is_ok (__getitem__ (call data_lt op self) k) = true.
Proof.
  intros Hop Hk. destruct op; cbn [call].
  - apply add_backer_resolves, Hk.
  - apply update_backer_loop_resolves, Hk.
  - apply setitem_resolves, Hk.
  - apply write_bytes_loop_resolves, Hk.
  - rewrite (getitem_same_contents self); [exact Hk| |]; destruct self; reflexivity.
  - rewrite (getitem_same_contents self);
      [exact Hk|apply read_backers|apply read_updates].
  - rewrite (getitem_same_contents self);
      [exact Hk|apply flatten_to_c_backers|apply flatten_to_c_updates].
  - rewrite (getitem_same_contents self);
      [exact Hk|apply read_bytes_c_backers|apply read_bytes_c_updates].
  - destruct s as [s|]; [discriminate|exact Hk].
Qed.

Lemma call_keeps_resolvable_witness :
  (_backers (call data_lt_unused
               (Add_backer 4094 (DStr ["a"%byte; "b"%byte; "c"%byte])) demo_flat)).*1
  = [4094; 4096] /\
  is_ok (__getitem__
           (call data_lt_unused (Add_backer 4094 (DStr ["a"%byte; "b"%byte; "c"%byte]))
                 demo_flat) 4096) = true.
Proof.
  split; [reflexivity|].
  apply (call_keeps_resolvable data_lt_unused
           (Add_backer 4094 (DStr ["a"%byte; "b"%byte; "c"%byte])) demo_flat 4096);
    reflexivity.
Defined.

(** [__setstate__] is the exception: restoring the empty snapshot on the
    four-byte space unmaps [0x1000]. *)
Example setstate_unmaps :
  is_ok (__getitem__ demo_flat 4096) = true /\
  __getitem__ (call data_lt_unused (Setstate (Some (mkSnapshot ∅ []))) demo_flat) 4096
  = Raise (KeyError 4096).
Proof. vm_compute. split; reflexivity. Qed.

(** ** After [update_backer] *)

Lemma apply_update_tuple key start d out :
  is_ok (apply_update key (PTuple start d) out) = false.
Proof.
  induction out as [|[s data] out IH]; simpl; [reflexivity|].
  destruct (_ && _); [reflexivity|].
  destruct (apply_update key (PTuple start d) out); [discriminate|reflexivity].
Qed.

Lemma apply_updates_tuple us key start d :
  (key, PTuple start d) ∈ us ->
  forall out, is_ok (apply_updates us out) = false.
Proof.
  induction us as [|[key' val] us IH]; intros Hin out.
  - apply elem_of_nil in Hin. contradiction.
  - apply elem_of_cons in Hin as [[= <- <-]|Hin]; simpl.
    + pose proof (apply_update_tuple key start d out) as H.
      destruct (apply_update key (PTuple start d) out); [discriminate|reflexivity].
    + destruct (apply_update key' val out); simpl; [apply IH, Hin|reflexivity].
Qed.

Lemma update_backer_loop_match bs start data self : forall i,
  existsb (fun b : Z * backer_data => b.1 =? start) bs = true ->
  exists i',
    update_backer_loop bs i start data self =
    set_flattening_needed true
      (set_updates (<[i' := PTuple start data]> (_updates self)) self).
Proof.
  induction bs as [|[oldstart d] bs IH]; intros i; simpl; [discriminate|].
  destruct (oldstart =? start); simpl; [eauto|apply IH].
Qed.

(** X17: once [update_backer] has found a backer with the given base, the
    pair it stored among the updates cannot be written into a stride: in
    the state it leaves, [_stride_repr] raises, and so does every
    [read_bytes_c], while the backers still read as before. *)
Theorem update_backer_breaks_the_view
    (start : Z) (data : backer_data) (self : Clemory) (addr : Z) :
  existsb (fun b : Z * backer_data => b.1 =? start) (_backers self) = true ->
  let self' := snd (update_backer start data self) in
  is_ok (_stride_repr self') = false /\
  is_ok (fst (read_bytes_c addr self')) = false /\
  _backers self' = _backers self.
Proof.
  intros Hm self'.
  destruct (update_backer_loop_match _ start data self 0 Hm) as (i & E).
  assert (Es : is_ok (_stride_repr self') = false).
  { unfold self', update_backer; cbn [snd]. rewrite E, stride_repr_unfold.
    destruct (stride_backers _) as [out|e]; simpl; [|reflexivity].
    apply (apply_updates_tuple _ i start data).
    apply elem_of_map_to_list. destruct self; simpl. apply lookup_insert_eq. }
  split; [exact Es|]. split; [|apply update_backer_backers].
  assert (Hf : _flattening_needed self' = true).
  { unfold self', update_backer; cbn [snd]. rewrite E. destruct self; reflexivity. }
  destruct (_stride_repr self') as [out|e] eqn:Er; [discriminate|].
  unfold read_bytes_c. rewrite Hf, (flatten_to_c_raise _ _ Er). reflexivity.
Qed.

Lemma update_backer_breaks_the_view_witness :
  is_ok (_stride_repr demo_updated) = false /\
  is_ok (fst (read_bytes_c 4097 demo_updated)) = false /\
  _backers demo_updated = _backers demo_flat.
Proof.
  apply (update_backer_breaks_the_view 4096 (DStr ["Z"%byte]) demo_flat 4097).
  reflexivity.
Defined.

(** ** Restoring a snapshot *)

Lemma dict_comprehension_spec {A B} (f : A -> result B) (d : gmap Z A) :
  match dict_comprehension f d with
  | Ok d' =>
      forall k, match d !! k with
                | Some v => exists v', f v = Ok v' /\ d' !! k = Some v'
                | None => d' !! k = None
                end
  | Raise e => exists k v, d !! k = Some v /\ f v = Raise e
  end.
Proof.
  unfold dict_comprehension.
  apply (map_fold_weak_ind
           (fun (r : result (gmap Z B)) (m : gmap Z A) =>
              match r with
              | Ok d' =>
                  forall k, match m !! k with
                            | Some v => exists v', f v = Ok v' /\ d' !! k = Some v'
                            | None => d' !! k = None
                            end
              | Raise e => exists k v, m !! k = Some v /\ f v = Raise e
              end)).
  - intros k. rewrite !lookup_empty. reflexivity.
  - intros i x m r Hi IH. destruct r as [acc|e]; simpl.
    + destruct (f x) as [v'|e] eqn:Ef; simpl.
      * intros k. destruct (decide (k = i)) as [->|Hne].
        -- rewrite !lookup_insert_eq. eauto.
        -- rewrite !lookup_insert_ne by congruence. apply IH.
      * exists i, x. rewrite lookup_insert_eq. auto.
    + destruct IH as (k & v & Hk & Hv). exists k, v. split; [|exact Hv].
      rewrite lookup_insert_ne; [exact Hk|]. intros ->. congruence.
Qed.

Lemma setstate_backers_restores bs : forall self self',
  setstate_backers bs self = (Ok tt, self') ->
  exists new,
    _backers self' = _backers self ++ new /\ Forall2 restores bs new /\
    _updates self' = _updates self /\ _pointer self' = _pointer self /\
    _cbackers self' = _cbackers self /\
    _flattening_needed self' = _flattening_needed self.
Proof.
  induction bs as [|[start [data|[s'|]]] bs IH]; intros self self' H; simpl in H.
  - injection H as <-. exists []. rewrite app_nil_r. repeat split. constructor.
  - apply IH in H as (new & Hb & Hnew & Hu & Hp & Hc & Hf).
    exists ((start, DStr data) :: new). destruct self; simpl in *.
    rewrite Hb, <- app_assoc. repeat split; auto.
    constructor; [split; reflexivity|exact Hnew].
  - destruct (setstate_body s' init) as [[[]|e] subdata] eqn:Es; [|discriminate].
    apply IH in H as (new & Hb & Hnew & Hu & Hp & Hc & Hf).
    exists ((start, DClemory subdata) :: new). destruct self; simpl in *.
    rewrite Hb, <- app_assoc. repeat split; auto.
    constructor; [split; [reflexivity|exact Es]|exact Hnew].
  - discriminate.
Qed.

(** X18: when [__setstate__] returns on a snapshot, the backers are those
    of the snapshot, entry by entry and in its order (a nested snapshot
    restored on a fresh space), the updates are the [chr] of the
    snapshot's, and the view is marked stale; the cursor and the C buffers
    are not reset: they are the ones the object had. *)
Theorem setstate_restores (s : snapshot) (self self' : Clemory) :
  __setstate__ (Some s) self = (Ok tt, self') ->
  Forall2 restores (snapshot_backers s) (_backers self') /\
  (forall k, match snapshot_updates s !! k with
             | Some v => exists w, chr v = Ok w /\ _updates self' !! k = Some w
             | None => _updates self' !! k = None
             end) /\
  _flattening_needed self' = true /\
  _pointer self' = _pointer self /\
  _cbackers self' = _cbackers self.
Proof.
  destruct s as [updates backers]. unfold __setstate__.
  rewrite setstate_body_unfold.
  pose proof (dict_comprehension_spec chr updates) as Hd.
  destruct (dict_comprehension chr updates) as [u|e]; [|discriminate].
  destruct (setstate_backers _ _) as [[[]|e] self1] eqn:E; [|discriminate].
  intros [= <-].
  apply setstate_backers_restores in E as (new & Hb & Hnew & Hu & Hp & Hc & _).
  destruct self1, self; simpl in *. subst. auto.
Qed.

Lemma setstate_restores_witness :
  let s := mkSnapshot {[4097 := 122]}
             [(4096, SStr ["016"%byte; "032"%byte]);
              (8192, SClemory (Some (mkSnapshot ∅ [(0, SStr ["A"%byte])])))] in
  let self' := snd (__setstate__ (Some s) demo_seeked) in
  Forall2 restores (snapshot_backers s) (_backers self') /\
  (forall k, match snapshot_updates s !! k with
             | Some v => exists w, chr v = Ok w /\ _updates self' !! k = Some w
             | None => _updates self' !! k = None
             end) /\
  _flattening_needed self' = true /\
  _pointer self' = _pointer demo_seeked /\
  _cbackers self' = _cbackers demo_seeked.
Proof.
  intros s self'.
  apply (setstate_restores s demo_seeked self'). reflexivity.
Defined.

Example setstate_then_reads :
  let s := mkSnapshot {[4097 := 122]}
             [(4096, SStr ["016"%byte; "032"%byte]);
              (8192, SClemory (Some (mkSnapshot ∅ [(0, SStr ["A"%byte])])))] in
  let self' := snd (__setstate__ (Some s) demo_seeked) in
  __getitem__ self' 4096 = Ok (chr_of "016"%byte) /\
  __getitem__ self' 4097 = Ok (chr_of "z"%byte) /\
  __getitem__ self' 8192 = Ok (chr_of "A"%byte) /\
  _pointer self' = 4096.
Proof. vm_compute. repeat split. Qed.

Lemma chr_returns v w : chr v = Ok w -> 0 <= v < 256.
Proof.
  unfold chr. destruct (_ && _); [|discriminate].
  destruct (Z.leb_spec 0 v), (Z.ltb_spec v 256); simpl; try discriminate. lia.
Qed.

Lemma chr_in_range v : 0 <= v < 256 -> is_ok (chr v) = true.
Proof.
  intros Hv. unfold chr.
  assert (Hm : sys_maxint = 9223372036854775807) by reflexivity.
  destruct (Z.leb_spec (- sys_maxint - 1) v), (Z.leb_spec v sys_maxint);
    simpl; try lia.
  destruct (Z.leb_spec 0 v), (Z.ltb_spec v 256); simpl; try lia.
  destruct (Byte.of_N (Z.to_N v)) eqn:E; [reflexivity|].
  apply Byte.of_N_None_iff in E. lia.
Qed.

Lemma chr_raises v e :
  chr v = Raise e ->
  if (- sys_maxint - 1 <=? v) && (v <=? sys_maxint)
  then e = ValueError else e = OverflowError.
Proof.
  unfold chr. destruct (_ && _); [|congruence].
  destruct (Z.leb_spec 0 v), (Z.ltb_spec v 256); simpl; try congruence.
  destruct (Byte.of_N (Z.to_N v)) eqn:E; congruence.
Qed.

(** X19: a snapshot that holds an update value outside [range(256)] is
    refused: [__setstate__] raises from [chr] before it assigns anything
    and hands back the state it was given.  The exception is the one [chr]
    raises for some update value of the snapshot: [ValueError] for a value
    that fits a C [long], [OverflowError] for one that does not; so it is
    [ValueError] when every update value of the snapshot fits. *)
Theorem setstate_rejects_wide_update (s : snapshot) (self : Clemory) (k v : Z) :
  snapshot_updates s !! k = Some v ->
  ~ (0 <= v < 256) ->
  exists e k' v',
    __setstate__ (Some s) self = (Raise e, self) /\
    snapshot_updates s !! k' = Some v' /\ ~ (0 <= v' < 256) /\
    e = (if (- sys_maxint - 1 <=? v') && (v' <=? sys_maxint)
         then ValueError else OverflowError).
Proof.
  intros Hk Hv. destruct s as [updates backers].
  cbn [snapshot_updates] in *. unfold __setstate__.
  rewrite setstate_body_unfold.
  pose proof (dict_comprehension_spec chr updates) as Hd.
  destruct (dict_comprehension chr updates) as [u|e].
  - specialize (Hd k). rewrite Hk in Hd. destruct Hd as (w & Hw & _).
    apply chr_returns in Hw. contradiction.
  - destruct Hd as (k' & v' & Hk' & He). exists e, k', v'.
    split; [reflexivity|]. split; [exact Hk'|]. split.
    + intros Hr. apply chr_in_range in Hr. rewrite He in Hr. discriminate.
    + apply chr_raises in He. destruct (_ && _); exact He.
Qed.

Lemma setstate_rejects_wide_update_witness :
  exists e k' v',
    __setstate__ (Some (mkSnapshot {[4096 := 256]} [(4096, SStr ["A"%byte])]))
                 demo_flat = (Raise e, demo_flat) /\
    snapshot_updates (mkSnapshot {[4096 := 256]} [(4096, SStr ["A"%byte])]) !! k'
    = Some v' /\
    ~ (0 <= v' < 256) /\
    e = (if (- sys_maxint - 1 <=? v') && (v' <=? sys_maxint)
         then ValueError else OverflowError).
Proof.
  apply (setstate_rejects_wide_update
           (mkSnapshot {[4096 := 256]} [(4096, SStr ["A"%byte])]) demo_flat 4096 256).
  - reflexivity.
  - lia.
Defined.

Example setstate_wide_updates :
  __setstate__ (Some (mkSnapshot {[4096 := 256]} [])) demo_flat
  = (Raise ValueError, demo_flat) /\
  __setstate__ (Some (mkSnapshot {[4096 := 2 ^ 64]} [])) demo_flat
  = (Raise OverflowError, demo_flat) /\
  __setstate__ (Some (mkSnapshot {[4096 := -1]} [])) demo_flat
  = (Raise ValueError, demo_flat).
Proof. vm_compute. repeat split. Qed.

(** ** Word helpers *)

Section Word_helper_properties.
Variable arch_bytes : Z.
Variable pack : Z -> result (list byte).
Variable unpack : list byte -> result Z.

(** X20: whatever the format, [read_addr_at(where)] reads all the
    [arch.bytes] bytes before it decodes any: when an address of
    [[where, where + arch.bytes)] is not resolvable it raises [KeyError]
    for an unresolvable address of that range, and no partial word is
    decoded. *)
Theorem read_addr_at_needs_every_byte (self : Clemory) (where_ a : Z) :
  where_ <= a < where_ + arch_bytes ->
  is_ok (__getitem__ self a) = false ->
  exists a0, where_ <= a0 <= a /\
             is_ok (__getitem__ self a0) = false /\
             read_addr_at arch_bytes unpack self where_ = Raise (KeyError a0).
Proof.
  intros Ha Hf. unfold read_addr_at, read_bytes.
  destruct (read_bytes_loop_raise self (Z.to_nat arch_bytes) where_ a)
    as (a0 & Ha0 & E); [lia|exact Hf|].
  exists a0. split; [exact Ha0|]. rewrite E. split; [|reflexivity].
  clear -E. revert E. generalize where_.
  induction (Z.to_nat arch_bytes) as [|cnt IH]; intros i; simpl; [discriminate|].
  destruct (getitem_cases self i) as [[v Hv]|Hr].
  - rewrite Hv; simpl. specialize (IH (i + 1)).
    destruct (read_bytes_loop self (i + 1) cnt); simpl; [discriminate|].
    intros [= ->]. auto.
  - rewrite Hr; simpl. intros [= <-]. rewrite Hr. reflexivity.
Qed.

Lemma join_chars data : join (chr_of <$> data) = Ok data.
Proof.
  induction data as [|c data IH]; [reflexivity|].
  simpl. change (list_fmap byte value chr_of data) with (chr_of <$> data).
  rewrite IH. reflexivity.
Qed.

(** X21: a word written is the word read.  When the format packs [addr]
    into exactly [arch.bytes] bytes that it unpacks to [addr] again, and
    every address of [[where, where + arch.bytes)] is resolvable,
    [write_addr_at(where, addr)] succeeds and [read_addr_at(where)] then
    returns [addr]; reads outside the range, the backers and the cursor
    are as before. *)
Theorem write_addr_at_then_read_addr_at
    (where_ addr : Z) (self : Clemory) (by_ : list byte) :
  pack addr = Ok by_ ->
  Z.of_nat (length by_) = arch_bytes ->
  unpack by_ = Ok addr ->
  (forall a, where_ <= a < where_ + arch_bytes ->
             is_ok (__getitem__ self a) = true) ->
  exists self',
    write_addr_at pack where_ addr self = (Ok tt, self') /\
    read_addr_at arch_bytes unpack self' where_ = Ok addr /\
    (forall k, ~ (where_ <= k < where_ + arch_bytes) ->
               __getitem__ self' k = __getitem__ self k) /\
    _backers self' = _backers self /\
    _pointer self' = _pointer self.
Proof.
  intros Hpack Hlen Hunpack Hall. unfold write_addr_at, write_bytes.
  rewrite Hpack.
  destruct (write_bytes_loop_ok where_ by_ 0 self) as (self' & E & Hb & Hp & Hu).
  { intros j Hj. apply Hall. lia. }
  rewrite Z.add_0_r in Hu.
  exists self'. split; [exact E|]. split; [|split; [|auto]].
  - unfold read_addr_at. rewrite <- Hlen.
    rewrite (read_bytes_of_updates self' where_ by_).
    + simpl. rewrite join_chars. simpl. exact Hunpack.
    + intros j c Hj. rewrite Hu, written_lookup, Hj. reflexivity.
  - intros k Hk. rewrite !getitem_unfold, Hu, Hb. unfold written.
    destruct (Z.leb_spec where_ k); [|reflexivity].
    rewrite lookup_ge_None_2 by lia. reflexivity.
Qed.
End Word_helper_properties.

Lemma read_addr_at_needs_every_byte_witness :
  exists a0, 4099 <= a0 <= 4100 /\
             is_ok (__getitem__ demo_flat a0) = false /\
             read_addr_at 2 unpack_u16le demo_flat 4099 = Raise (KeyError a0).
Proof.
  apply (read_addr_at_needs_every_byte 2 unpack_u16le demo_flat 4099 4100);
    [lia|reflexivity].
Defined.

Lemma write_addr_at_then_read_addr_at_witness :
  exists self',
    write_addr_at pack_u16le 4097 4660 demo_flat = (Ok tt, self') /\
    read_addr_at 2 unpack_u16le self' 4097 = Ok 4660 /\
    (forall k, ~ (4097 <= k < 4097 + 2) ->
               __getitem__ self' k = __getitem__ demo_flat k) /\
    _backers self' = _backers demo_flat /\
    _pointer self' = _pointer demo_flat.
Proof.
  apply (write_addr_at_then_read_addr_at 2 pack_u16le unpack_u16le
           4097 4660 demo_flat ["052"%byte; "018"%byte]);
    [reflexivity|reflexivity|reflexivity|].
  intros a Ha. assert (a = 4097 \/ a = 4098) as [-> | ->] by lia; reflexivity.
Defined.

Example word_helpers_demo :
  read_addr_at 2 unpack_u16le demo_flat 4096 = Ok 8208 /\
  fst (write_addr_at pack_u16le 4099 4660 demo_flat) = Raise (IndexError 4100) /\
  __getitem__ (snd (write_addr_at pack_u16le 4099 4660 demo_flat)) 4099
  = Ok (chr_of "052"%byte).
Proof. vm_compute. repeat split. Qed.
